(** * A shallow embedding of the device-loss / device re-creation reproducer
    (src/main.cpp): the [Scene] class with its [initialize], [run] and
    [shutdown] methods, and [main], which runs one lifecycle and, after a
    device loss, a second [initialize] on a fresh [Scene].

    The graphics API and the windowing layer are external collaborators.  A
    [world] gives what they answer: the result of every API call (success, a
    thrown error, or a call that never returns) and the data the queries
    return.  Every API call the code issues is appended to a call trace.
    Vectors of opaque handles whose only observable property is their size
    are kept as their size; a [vk::Unique*] member is kept as a flag telling
    whether it holds a handle. *)

From Stdlib Require Import String List ZArith Bool Lia.
Import ListNotations.
Open Scope string_scope.
Open Scope list_scope.
Open Scope nat_scope.

(** ** Errors, as the C++ exception classes the code can see *)

(** [vk::DeviceLostError], any other [vk::SystemError] of vulkan.hpp, and
    [std::runtime_error].  All of them derive from [std::exception]; each
    carries its [what()] message. *)
Inductive err :=
| DeviceLostError (msg : string)
| VkSystemError (msg : string)
| RuntimeError (msg : string).

Definition what (e : err) : string :=
  match e with
  | DeviceLostError m | VkSystemError m | RuntimeError m => m
  end.

Definition is_device_lost (e : err) : bool :=
  match e with DeviceLostError _ => true | _ => false end.

(** What an API call does when it is issued: returns, fails with
    [VK_ERROR_DEVICE_LOST], fails with another error code, or never returns
    (the hang the reproducer provokes).  vulkan.hpp turns a failure into a
    [vk::DeviceLostError] or another [vk::SystemError]. *)
Inductive vkres := VOk | VDeviceLost (msg : string) | VError (msg : string) | VHang.

(** ** Handles and API calls *)

(** A [GLFWwindow*]: the member [m_window] has no initializer, so a fresh
    [Scene] holds an indeterminate pointer. *)
Inductive ptr := PIndet | PNull | PWin (id : nat).

Inductive semaphore := DrawSemaphore | PresentSemaphore.
Inductive shader_stage := StageVertex | StageFragment.
Inductive pipeline_stage := ColorAttachmentOutput.
Inductive bind_point := BindGraphics.

(** The state of a [vk::Fence] as the host sees it: signaled, unsignaled
    with nothing that will signal it, or unsignaled with a submission that
    signals it when the device completes it. *)
Inductive fence := FSignaled | FUnsignaled | FPending.

(** [UINT64_MAX], the "wait forever" timeout. *)
Definition UINT64_MAX : Z := 2 ^ 64 - 1.

Inductive apicall :=
(* windowing layer *)
| GlfwInit | GlfwSetErrorCallback | GlfwWindowHint
| GlfwCreateWindow (w h : nat)
| GlfwPollEvents | GlfwWindowShouldClose
| GlfwDestroyWindow (w : ptr) | GlfwTerminate
(* instance and device set-up *)
| EnumerateInstanceExtensionProperties
| CreateInstance
| EnumeratePhysicalDevices
| CreateDevice (queue_family : Z)
| GetQueue (queue_family : Z) (index : nat)
| CreateWin32Surface
| GetSurfaceSupport (queue_family : Z)
| GetSurfaceCapabilities | GetSurfaceFormats | GetSurfacePresentModes
| CreateSwapchain (min_images width height : nat)
| GetSwapchainImages
| CreateImageView (k : nat)
| CreateRenderPass
| CreateFramebuffer (k : nat)
| CreateCommandPool
| AllocateCommandBuffers (count : nat)
| CreatePipelineLayout
| CreateShaderModule (st : shader_stage)
| CreateGraphicsPipeline
| CreateFence (k : nat) (signaled : bool)
| CreateSemaphore (s : semaphore)
(* frame loop *)
| AcquireNextImage (timeout : Z) (s : semaphore)
| WaitForFences (k : nat) (wait_all : bool) (timeout : Z)
| ResetFences (k : nat)
| CmdBegin (cmd : nat)
| CmdBeginRenderPass (cmd framebuffer : nat) (area_w area_h : nat)
    (clear_color : list Z)
| CmdBindPipeline (cmd : nat) (bp : bind_point)
| CmdDraw (cmd : nat) (vertex_count instance_count first_vertex first_instance : nat)
| CmdEndRenderPass (cmd : nat)
| CmdEnd (cmd : nat)
| QueueSubmit (cmd : nat) (waits : list semaphore)
    (wait_stages : list pipeline_stage) (signals : list semaphore) (fence_k : nat)
| QueuePresent (waits : list semaphore) (image_index : nat)
(* teardown *)
| DeviceWaitIdle.

(** ** The external world *)

Inductive format := FormatUndefined | FormatB8G8R8A8Unorm | FormatOther (n : nat).

Definition format_eqb (a b : format) : bool :=
  match a, b with
  | FormatUndefined, FormatUndefined => true
  | FormatB8G8R8A8Unorm, FormatB8G8R8A8Unorm => true
  | FormatOther n, FormatOther m => Nat.eqb n m
  | _, _ => false
  end.

Inductive present_mode := PresentFifo | PresentMailbox | PresentImmediate.

Definition present_mode_eqb (a b : present_mode) : bool :=
  match a, b with
  | PresentFifo, PresentFifo | PresentMailbox, PresentMailbox
  | PresentImmediate, PresentImmediate => true
  | _, _ => false
  end.

(** [vk::SurfaceCapabilitiesKHR], the fields the code reads. *)
Record surface_caps := {
  cur_width : nat; cur_height : nat;
  min_image_count : nat; max_image_count : nat;
  color_attachment_usage : bool }.

(** [vk::QueueFamilyProperties]: graphics flag and queue count. *)
Record queue_family := { qf_graphics : bool; qf_count : nat }.

Record world := {
  w_res : apicall -> vkres;          (* what each call does *)
  w_window : option nat;             (* glfwCreateWindow: a window or nullptr *)
  w_inst_exts : list string;         (* enumerateInstanceExtensionProperties *)
  w_num_phys_devs : nat;             (* enumeratePhysicalDevices, its size *)
  w_queue_families : list queue_family;  (* of the first physical device *)
  w_surface_support : bool;          (* getSurfaceSupportKHR *)
  w_caps : surface_caps;             (* getSurfaceCapabilitiesKHR *)
  w_formats : list format;           (* getSurfaceFormatsKHR *)
  w_present_modes : list present_mode;   (* getSurfacePresentModesKHR *)
  w_swapchain_images : nat }.        (* getSwapchainImagesKHR, its size *)

(** ** The [Scene] object *)

(** The [vk::Unique*] members, which are null until assigned. *)
Inductive uniq :=
| HInstance | HDevice | HSurface | HSwapchain | HRenderPass | HCmdPool
| HVertShader | HFragShader | HPipelineLayout | HPipeline
| HDrawSemaphore | HPresentSemaphore.

Definition uniq_eqb (a b : uniq) : bool :=
  match a, b with
  | HInstance, HInstance | HDevice, HDevice | HSurface, HSurface
  | HSwapchain, HSwapchain | HRenderPass, HRenderPass | HCmdPool, HCmdPool
  | HVertShader, HVertShader | HFragShader, HFragShader
  | HPipelineLayout, HPipelineLayout | HPipeline, HPipeline
  | HDrawSemaphore, HDrawSemaphore | HPresentSemaphore, HPresentSemaphore => true
  | _, _ => false
  end.

Record scene := mkScene {
  m_window : ptr;
  m_phys_dev : option nat;
  m_gq_fam_idx : Z;
  m_uniq : uniq -> bool;             (* which unique handles are non-null *)
  m_swapchain_imgs : nat;            (* std::vector<vk::Image>, its size *)
  m_swapchain_img_views : nat;       (* std::vector<vk::UniqueImageView> *)
  m_framebuffers : nat;              (* std::vector<vk::UniqueFramebuffer> *)
  m_command_buffers : nat;           (* std::vector<vk::UniqueCommandBuffer> *)
  m_fences : list fence }.           (* std::vector<vk::UniqueFence> *)

(** The members with default initializers. *)
Definition m_width : nat := 1280.
Definition m_height : nat := 720.
Definition m_swapchain_format : format := FormatB8G8R8A8Unorm.
Definition m_present_mode : present_mode := PresentFifo.
Definition m_sw_num_images : nat := 2.

(** [uint32_t m_gq_fam_idx = -1]. *)
Definition gq_fam_idx_init : Z := 2 ^ 32 - 1.

(** [Scene scene;]: default construction. *)
Definition new_scene : scene := {|
  m_window := PIndet; m_phys_dev := None; m_gq_fam_idx := gq_fam_idx_init;
  m_uniq := fun _ => false;
  m_swapchain_imgs := 0; m_swapchain_img_views := 0; m_framebuffers := 0;
  m_command_buffers := 0; m_fences := [] |}.

Definition set_window (p : ptr) (s : scene) : scene :=
  mkScene p (m_phys_dev s) (m_gq_fam_idx s) (m_uniq s) (m_swapchain_imgs s)
    (m_swapchain_img_views s) (m_framebuffers s) (m_command_buffers s) (m_fences s).
Definition set_phys_dev (d : option nat) (s : scene) : scene :=
  mkScene (m_window s) d (m_gq_fam_idx s) (m_uniq s) (m_swapchain_imgs s)
    (m_swapchain_img_views s) (m_framebuffers s) (m_command_buffers s) (m_fences s).
Definition set_gq_fam_idx (i : Z) (s : scene) : scene :=
  mkScene (m_window s) (m_phys_dev s) i (m_uniq s) (m_swapchain_imgs s)
    (m_swapchain_img_views s) (m_framebuffers s) (m_command_buffers s) (m_fences s).
Definition set_uniq (h : uniq) (s : scene) : scene :=
  mkScene (m_window s) (m_phys_dev s) (m_gq_fam_idx s)
    (fun h' => if uniq_eqb h h' then true else m_uniq s h') (m_swapchain_imgs s)
    (m_swapchain_img_views s) (m_framebuffers s) (m_command_buffers s) (m_fences s).
Definition set_swapchain_imgs (n : nat) (s : scene) : scene :=
  mkScene (m_window s) (m_phys_dev s) (m_gq_fam_idx s) (m_uniq s) n
    (m_swapchain_img_views s) (m_framebuffers s) (m_command_buffers s) (m_fences s).
Definition push_img_view (s : scene) : scene :=
  mkScene (m_window s) (m_phys_dev s) (m_gq_fam_idx s) (m_uniq s) (m_swapchain_imgs s)
    (S (m_swapchain_img_views s)) (m_framebuffers s) (m_command_buffers s) (m_fences s).
Definition push_framebuffer (s : scene) : scene :=
  mkScene (m_window s) (m_phys_dev s) (m_gq_fam_idx s) (m_uniq s) (m_swapchain_imgs s)
    (m_swapchain_img_views s) (S (m_framebuffers s)) (m_command_buffers s) (m_fences s).
Definition set_command_buffers (n : nat) (s : scene) : scene :=
  mkScene (m_window s) (m_phys_dev s) (m_gq_fam_idx s) (m_uniq s) (m_swapchain_imgs s)
    (m_swapchain_img_views s) (m_framebuffers s) n (m_fences s).
Definition set_fences (fs : list fence) (s : scene) : scene :=
  mkScene (m_window s) (m_phys_dev s) (m_gq_fam_idx s) (m_uniq s) (m_swapchain_imgs s)
    (m_swapchain_img_views s) (m_framebuffers s) (m_command_buffers s) fs.

(** ** The monad: world reader, [Scene] state, call trace, exceptions,
    non-termination and undefined behaviour *)

Inductive res (A : Type) :=
| ROk (a : A) (s : scene) (tr : list apicall)
| RExc (e : err) (s : scene) (tr : list apicall)
| RHang (tr : list apicall)
| RUB (tr : list apicall).
Arguments ROk {A}. Arguments RExc {A}. Arguments RHang {A}. Arguments RUB {A}.

Definition M (A : Type) := world -> scene -> list apicall -> res A.

Definition ret {A} (a : A) : M A := fun _ s tr => ROk a s tr.
Definition bind {A B} (m : M A) (f : A -> M B) : M B := fun w s tr =>
  match m w s tr with
  | ROk a s' tr' => f a w s' tr'
  | RExc e s' tr' => RExc e s' tr'
  | RHang tr' => RHang tr'
  | RUB tr' => RUB tr'
  end.

Notation "x <- c1 ;; c2" := (bind c1 (fun x => c2))
  (at level 61, c1 at next level, right associativity).
Notation "c1 ;; c2" := (bind c1 (fun _ => c2)) (at level 61, right associativity).

Definition throw {A} (e : err) : M A := fun _ s tr => RExc e s tr.
Definition ub {A} : M A := fun _ _ tr => RUB tr.
Definition diverge {A} : M A := fun _ _ tr => RHang tr.
Definition get : M scene := fun _ s tr => ROk s s tr.
Definition modify (f : scene -> scene) : M unit := fun _ s tr => ROk tt (f s) tr.
Definition asks {A} (f : world -> A) : M A := fun w s tr => ROk (f w) s tr.

(** A call that cannot fail (a GLFW call, a command recorded into a buffer). *)
Definition emit (c : apicall) : M unit := fun _ s tr => ROk tt s (app tr [c]).

(** A call into the graphics API: vulkan.hpp throws on an error result. *)
Definition call (c : apicall) : M unit := fun w s tr =>
  let tr' := app tr [c] in
  match w_res w c with
  | VOk => ROk tt s tr'
  | VDeviceLost m => RExc (DeviceLostError m) s tr'
  | VError m => RExc (VkSystemError m) s tr'
  | VHang => RHang tr'
  end.

(** [try { m } catch (...) {}] *)
Definition catch_all (m : M unit) : M unit := fun w s tr =>
  match m w s tr with
  | RExc _ s' tr' => ROk tt s' tr'
  | r => r
  end.

(** [v[i]] on a [std::vector] of size [n]: undefined out of range. *)
Definition index_check (n i : nat) : M unit := if i <? n then ret tt else ub.

(** Testing a pointer in a condition; an indeterminate pointer is UB. *)
Definition ptr_truth (p : ptr) : M bool :=
  match p with PIndet => ub | PNull => ret false | PWin _ => ret true end.

(** [for (uint32_t i = start; i < start + n; ++i) body(i);] *)
Fixpoint for_from (start n : nat) (body : nat -> M unit) : M unit :=
  match n with
  | 0 => ret tt
  | S n' => body start;; for_from (S start) n' body
  end.

(** ** Scene::initialize and its steps (src/main.cpp:136-152, 213-530) *)

Definition VK_KHR_SURFACE_EXTENSION_NAME := "VK_KHR_surface".
Definition VK_KHR_WIN32_SURFACE_EXTENSION_NAME := "VK_KHR_win32_surface".

Definition glfwCreateWindow (w h : nat) : M ptr := fun wd s tr =>
  ROk (match w_window wd with Some n => PWin n | None => PNull end) s
      (app tr [GlfwCreateWindow w h]).

(** The [glfwTerminate()] after the [throw] is unreachable. *)
Definition createWindowAndSurface : M unit :=
  emit GlfwInit;; emit GlfwSetErrorCallback;; emit GlfwWindowHint;;
  w <- glfwCreateWindow m_width m_height;;
  modify (set_window w);;
  match w with
  | PNull => throw (RuntimeError "Window Creation failed!")
  | _ => ret tt
  end.

Definition isInstanceExtensionAvailable (ext : string) : M bool :=
  call EnumerateInstanceExtensionProperties;;
  exts <- asks w_inst_exts;;
  ret (existsb (String.eqb ext) exts).

Definition initializeVKInstance : M unit :=
  b1 <- isInstanceExtensionAvailable VK_KHR_SURFACE_EXTENSION_NAME;;
  if negb b1 then throw (RuntimeError (String.append VK_KHR_SURFACE_EXTENSION_NAME " is not available!")) else
  b2 <- isInstanceExtensionAvailable VK_KHR_WIN32_SURFACE_EXTENSION_NAME;;
  if negb b2 then throw (RuntimeError (String.append VK_KHR_SURFACE_EXTENSION_NAME " is not available!")) else
  call CreateInstance;;
  modify (set_uniq HInstance).

Fixpoint find_graphics_family (qfs : list queue_family) (i : nat) : option nat :=
  match qfs with
  | [] => None
  | q :: qs => if qf_graphics q && (0 <? qf_count q) then Some i
               else find_graphics_family qs (S i)
  end.

Definition phys_idx : nat := 0.

Definition selectQueueFamilyAndPhysicalDevice : M unit :=
  call EnumeratePhysicalDevices;;
  n <- asks w_num_phys_devs;;
  if n <=? phys_idx then throw (RuntimeError "Invalid Physical Device Index provided!") else
  modify (set_phys_dev (Some phys_idx));;
  qfs <- asks w_queue_families;;
  match find_graphics_family qfs 0 with
  | Some i => modify (set_gq_fam_idx (Z.of_nat i))
  | None => throw (RuntimeError "Can not find graphics family index!")
  end.

Definition initializeDevice : M unit :=
  s <- get;;
  call (CreateDevice (m_gq_fam_idx s));;
  modify (set_uniq HDevice);;
  emit (GetQueue (m_gq_fam_idx s) 0).

(** [createWin32SurfaceKHRUnique] throws rather than returning a null
    handle, so only the support query can reject the surface. *)
Definition createSurface : M unit :=
  call CreateWin32Surface;;
  s <- get;;
  call (GetSurfaceSupport (m_gq_fam_idx s));;
  sup <- asks w_surface_support;;
  if negb sup then throw (RuntimeError "Can not create Surface!") else
  modify (set_uniq HSurface).

Definition createSwapChainAndImages : M unit :=
  call GetSurfaceCapabilities;;
  caps <- asks w_caps;;
  if negb (m_width =? cur_width caps) || negb (m_height =? cur_height caps) then
    throw (RuntimeError "chosen image size not supported by window surface") else
  if m_sw_num_images <? min_image_count caps then
    throw (RuntimeError "chosen image count is too small and not supported by the window surface") else
  if negb (max_image_count caps =? 0) && (max_image_count caps <? m_sw_num_images) then
    throw (RuntimeError "chosen image count is too large and not supported by the window surface") else
  if negb (color_attachment_usage caps) then
    throw (RuntimeError "window surface cannot be used as color attachment") else
  call GetSurfaceFormats;;
  fmts <- asks w_formats;;
  if negb (existsb (fun f => format_eqb f FormatUndefined || format_eqb f m_swapchain_format) fmts) then
    throw (RuntimeError "window surface not compatible with chosen color format") else
  call GetSurfacePresentModes;;
  modes <- asks w_present_modes;;
  if negb (existsb (present_mode_eqb m_present_mode) modes) then
    throw (RuntimeError "Chosen Present Mode is not supported!") else
  call (CreateSwapchain m_sw_num_images m_width m_height);;
  modify (set_uniq HSwapchain);;
  call GetSwapchainImages;;
  n <- asks w_swapchain_images;;
  modify (set_swapchain_imgs n).

Definition createSwapChainImageViews : M unit :=
  s <- get;;
  for_from 0 (m_swapchain_imgs s) (fun k =>
    call (CreateImageView k);; modify push_img_view).

Definition createPass : M unit :=
  call CreateRenderPass;; modify (set_uniq HRenderPass).

Definition createFramebuffer : M unit :=
  for_from 0 m_sw_num_images (fun i =>
    s <- get;;
    index_check (m_swapchain_img_views s) i;;
    call (CreateFramebuffer i);;
    modify push_framebuffer).

Definition allocateCommandBuffers : M unit :=
  call CreateCommandPool;;
  modify (set_uniq HCmdPool);;
  call (AllocateCommandBuffers m_sw_num_images);;
  modify (set_command_buffers m_sw_num_images).

Definition createShaderInterface : M unit :=
  call CreatePipelineLayout;; modify (set_uniq HPipelineLayout).

Definition createPipeline : M unit :=
  call (CreateShaderModule StageVertex);; modify (set_uniq HVertShader);;
  call (CreateShaderModule StageFragment);; modify (set_uniq HFragShader);;
  call CreateGraphicsPipeline;; modify (set_uniq HPipeline).

(** [f_ci.flags = vk::FenceCreateFlagBits::eSignaled] *)
Definition f_ci_signaled : bool := true.

(** The state of a freshly created fence. *)
Definition fence_of_flags (signaled : bool) : fence :=
  if signaled then FSignaled else FUnsignaled.

Definition initSyncEntities : M unit :=
  for_from 0 m_sw_num_images (fun i =>
    call (CreateFence i f_ci_signaled);;
    s <- get;;
    modify (set_fences (m_fences s ++ [fence_of_flags f_ci_signaled])));;
  call (CreateSemaphore DrawSemaphore);; modify (set_uniq HDrawSemaphore);;
  call (CreateSemaphore PresentSemaphore);; modify (set_uniq HPresentSemaphore).

Definition initialize : M unit :=
  createWindowAndSurface;;
  initializeVKInstance;;
  selectQueueFamilyAndPhysicalDevice;;
  initializeDevice;;
  createSurface;;
  createSwapChainAndImages;;
  createSwapChainImageViews;;
  createPass;;
  createFramebuffer;;
  allocateCommandBuffers;;
  createShaderInterface;;
  createPipeline;;
  initSyncEntities.

(** ** selectMemoryTypeIndex (src/main.cpp:54-70)

    A free function the program never calls.  [memoryTypeBits] is the mask
    of [mem_req]; [propertyFlags i] is
    [mem_props.memoryTypes[i].propertyFlags] of the physical device's memory
    properties, read for every [i] below [VK_MAX_MEMORY_TYPES] whatever
    [memoryTypeCount] is; the flag sets are bit masks.  The [int] [1 << i]
    meets the [uint32_t] mask as bit [i]. *)
Definition VK_MAX_MEMORY_TYPES : nat := 32.

(** [(mem_req.memoryTypeBits & (1 << i)) &&
     (mem_props.memoryTypes[i].propertyFlags & flags) == flags] *)
Definition memory_type_fits (memoryTypeBits : Z) (propertyFlags : nat -> Z)
    (flags : Z) (i : nat) : bool :=
  negb (Z.land memoryTypeBits (Z.shiftl 1 (Z.of_nat i)) =? 0)%Z &&
  (Z.land (propertyFlags i) flags =? flags)%Z.

(** [for (unsigned i = start; i < start + n; ++i) if (p(i)) return i;] *)
Fixpoint find_from (p : nat -> bool) (start n : nat) : option nat :=
  match n with
  | 0 => None
  | S n' => if p start then Some start else find_from p (S start) n'
  end.

(** [inl i]: returns [i]; [inr e]: throws [e]. *)
Definition selectMemoryTypeIndex (memoryTypeBits : Z) (propertyFlags : nat -> Z)
    (preferred required : Z) : sum nat err :=
  match find_from (memory_type_fits memoryTypeBits propertyFlags preferred)
          0 VK_MAX_MEMORY_TYPES with
  | Some i => inl i
  | None =>
      match (if negb (required =? preferred)%Z
             then find_from (memory_type_fits memoryTypeBits propertyFlags required)
                    0 VK_MAX_MEMORY_TYPES
             else None) with
      | Some i => inl i
      | None => inr (RuntimeError "required memory type not available")
      end
  end.

(** ** Scene::run (src/main.cpp:154-192) and Scene::buildCommandBuffer
    (src/main.cpp:532-555) *)

(** What the outside world does during one iteration of the frame loop: the
    close flag after the poll, the index the acquisition returns, and what
    each call of the iteration does. *)
Record frame := {
  fi_close : bool;
  fi_image : nat;
  fi_res : apicall -> vkres }.

Definition world_with_res (r : apicall -> vkres) (w : world) : world :=
  {| w_res := r; w_window := w_window w; w_inst_exts := w_inst_exts w;
     w_num_phys_devs := w_num_phys_devs w; w_queue_families := w_queue_families w;
     w_surface_support := w_surface_support w; w_caps := w_caps w;
     w_formats := w_formats w; w_present_modes := w_present_modes w;
     w_swapchain_images := w_swapchain_images w |}.

Definition with_res {A} (r : apicall -> vkres) (m : M A) : M A := fun w =>
  m (world_with_res r w).

Fixpoint list_set {A} (l : list A) (k : nat) (x : A) : list A :=
  match l, k with
  | [], _ => []
  | _ :: l', 0 => x :: l'
  | y :: l', S k' => y :: list_set l' k' x
  end.

Definition set_fence (k : nat) (f : fence) : M unit :=
  s <- get;; modify (set_fences (list_set (m_fences s) k f)).

Definition glfwWindowShouldClose (close : bool) : M bool :=
  emit GlfwWindowShouldClose;; ret close.

(** [acquireNextImageKHR(...).value]; [acquired] is the index the
    presentation engine hands out. *)
Definition acquireNextImageKHR (timeout : Z) (sem : semaphore) (acquired : nat) : M nat :=
  call (AcquireNextImage timeout sem);; ret acquired.

(** [waitForFences] on fence [k] with the infinite timeout: a signaled fence
    lets it return at once, a pending one returns when the device completes
    the submission (or never, or with an error), an unsignaled fence that
    nothing will signal blocks forever. *)
Definition waitForFences (k : nat) (wait_all : bool) (timeout : Z) : M unit :=
  fun w s tr =>
  let c := WaitForFences k wait_all timeout in
  let tr' := app tr [c] in
  match nth_error (m_fences s) k with
  | None => RUB tr
  | Some f =>
      match w_res w c, f with
      | VDeviceLost m, _ => RExc (DeviceLostError m) s tr'
      | VError m, _ => RExc (VkSystemError m) s tr'
      | _, FSignaled => ROk tt s tr'
      | VOk, FPending => ROk tt (set_fences (list_set (m_fences s) k FSignaled) s) tr'
      | VHang, FPending => RHang tr'
      | _, FUnsignaled => RHang tr'
      end
  end.

Definition resetFences (k : nat) : M unit :=
  call (ResetFences k);; set_fence k FUnsignaled.

(** [const std::array<float,4> clear_color{0, 0, 1, 1}]: exact values. *)
Definition clear_color : list Z := [0; 0; 1; 1]%Z.

Definition buildCommandBuffer (image_index : nat) : M unit :=
  s <- get;;
  index_check (m_command_buffers s) image_index;;
  call (CmdBegin image_index);;
  index_check (m_framebuffers s) image_index;;
  emit (CmdBeginRenderPass image_index image_index m_width m_height clear_color);;
  emit (CmdBindPipeline image_index BindGraphics);;
  emit (CmdDraw image_index 3 1 0 0);;
  emit (CmdEndRenderPass image_index);;
  call (CmdEnd image_index).

(** [m_gr_queue.submit(submit_info, *m_fences[image_index])]: the fence is
    signaled when the device completes the submission. *)
Definition submit (image_index : nat) : M unit :=
  s <- get;;
  index_check (m_command_buffers s) image_index;;
  index_check (length (m_fences s)) image_index;;
  call (QueueSubmit image_index [DrawSemaphore] [ColorAttachmentOutput]
          [PresentSemaphore] image_index);;
  set_fence image_index FPending.

Definition presentKHR (image_index : nat) : M unit :=
  call (QueuePresent [PresentSemaphore] image_index).

(** One pass of the loop body after the close test. *)
Definition frame_body (acquired : nat) : M unit :=
  image_index <- acquireNextImageKHR UINT64_MAX DrawSemaphore acquired;;
  s <- get;;
  index_check (length (m_fences s)) image_index;;
  waitForFences image_index true UINT64_MAX;;
  s <- get;;
  index_check (length (m_fences s)) image_index;;
  resetFences image_index;;
  buildCommandBuffer image_index;;
  submit image_index;;
  presentKHR image_index.

(** One iteration of [while (true) { ... }]; [true] when it breaks. *)
Definition loop_iteration (f : frame) : M bool :=
  with_res (fi_res f) (
    emit GlfwPollEvents;;
    c <- glfwWindowShouldClose (fi_close f);;
    if c then ret true else (frame_body (fi_image f);; ret false)).

(** The loop over the iterations the world provides; when they run out the
    loop is still running. *)
Fixpoint run_loop (frames : list frame) : M unit :=
  match frames with
  | [] => diverge
  | f :: fs => brk <- loop_iteration f;; if brk then ret tt else run_loop fs
  end.

Definition run (frames : list frame) : M unit := run_loop frames.

(** ** Scene::shutdown (src/main.cpp:194-206) *)

Definition shutdown : M unit :=
  catch_all (
    s <- get;;
    if m_uniq s HDevice then call DeviceWaitIdle else ret tt);;
  s <- get;;
  b <- ptr_truth (m_window s);;
  (if b then emit (GlfwDestroyWindow (m_window s)) else ret tt);;
  emit GlfwTerminate.

(** ** main (src/main.cpp:557-601) *)

(** What [main] does at the level of [Scene] objects and console output;
    [k] numbers the [Scene] instances. *)
Inductive event :=
| ConstructScene (k : nat)
| CallInitialize (k : nat)
| CallRun (k : nat)
| CallShutdown (k : nat)
| Cerr (line : string)
| Cout (line : string)
| SystemPause.

Inductive main_result :=
| MExit (code : Z) (evs : list event)
| MHang (evs : list event)
| MUB (evs : list event)
| MTerminate (evs : list event).   (* an exception escapes [main] *)

Definition error_line (e : err) : string := String.append "Error Occurred: " (what e).

(** [scene.shutdown()] on a [Scene] the code has left in state [s]; an
    exception out of it would escape [main]. *)
Definition main_shutdown (w : world) (s : scene) (evs : list event)
    (k : main_result) : main_result :=
  match shutdown w s [] with
  | ROk _ _ _ => k
  | RExc _ _ _ => MTerminate evs
  | RHang _ => MHang evs
  | RUB _ => MUB evs
  end.

(** The second lifecycle: a new [Scene], [initialize()] only, then
    [shutdown()] and [std::system("pause")]. *)
Definition main_reinit (w2 : world) (evs : list event) (return_value : Z) : main_result :=
  let evs := evs ++ [ConstructScene 2; CallInitialize 2] in
  match initialize w2 new_scene [] with
  | ROk _ s _ =>
      let evs := evs ++ [Cout "re-initialization successful"; CallShutdown 2] in
      main_shutdown w2 s evs (MExit return_value (evs ++ [SystemPause]))
  | RExc e s _ =>
      let evs := evs ++ [Cerr (error_line e); CallShutdown 2] in
      main_shutdown w2 s evs (MExit 1 (evs ++ [SystemPause]))
  | RHang _ => MHang evs
  | RUB _ => MUB evs
  end.

(** After the first [try]: [scene.shutdown()], then return unless the
    device was lost. *)
Definition main_after_first (w1 w2 : world) (s : scene) (evs : list event)
    (device_lost : bool) (return_value : Z) : main_result :=
  let evs := evs ++ [CallShutdown 1] in
  main_shutdown w1 s evs
    (if negb device_lost then MExit return_value evs
     else main_reinit w2 evs return_value).

(** [main]: [w1] is the world of the first [Scene], [frames] the iterations
    of its frame loop, [w2] the world of the second [Scene]. *)
Definition main (w1 : world) (frames : list frame) (w2 : world) : main_result :=
  let evs := [ConstructScene 1; CallInitialize 1] in
  let '(evs, r) :=
    match initialize w1 new_scene [] with
    | ROk _ s tr => (evs ++ [CallRun 1], run frames w1 s tr)
    | r => (evs, r)
    end in
  match r with
  | ROk _ s _ => main_after_first w1 w2 s evs false 0
  | RExc e s _ =>
      if is_device_lost e
      then main_after_first w1 w2 s (evs ++ [Cerr "Device Lost, re-init..."]) true 0
      else main_after_first w1 w2 s (evs ++ [Cerr (error_line e)]) false 1
  | RHang _ => MHang evs
  | RUB _ => MUB evs
  end.

(** ** Sample worlds *)

Definition all_ok : apicall -> vkres := fun _ => VOk.

(** A conformant Windows machine: one adapter with a graphics queue, a
    1280x720 surface that takes the requested format, present mode and
    image count, and a swapchain of [images] images; [r] says what the calls
    do and [cw] x [ch] is the surface's current extent. *)
Definition sample_world (r : apicall -> vkres) (cw ch images : nat) : world := {|
  w_res := r; w_window := Some 7;
  w_inst_exts := [VK_KHR_SURFACE_EXTENSION_NAME; VK_KHR_WIN32_SURFACE_EXTENSION_NAME];
  w_num_phys_devs := 1;
  w_queue_families := [{| qf_graphics := true; qf_count := 1 |}];
  w_surface_support := true;
  w_caps := {| cur_width := cw; cur_height := ch; min_image_count := 2;
               max_image_count := 0; color_attachment_usage := true |};
  w_formats := [FormatB8G8R8A8Unorm]; w_present_modes := [PresentFifo];
  w_swapchain_images := images |}.

Definition good_world : world := sample_world all_ok 1280 720 2.

Definition frame_ok (close : bool) (i : nat) : frame :=
  {| fi_close := close; fi_image := i; fi_res := all_ok |}.

(** The [Scene] as a successful [initialize()] on [good_world] leaves it. *)
Definition ready_scene : scene := {|
  m_window := PWin 7; m_phys_dev := Some 0; m_gq_fam_idx := 0%Z;
  m_uniq := fun _ => true;
  m_swapchain_imgs := 2; m_swapchain_img_views := 2; m_framebuffers := 2;
  m_command_buffers := 2; m_fences := [FSignaled; FSignaled] |}.

(** A machine whose loader offers [VK_KHR_surface] but not
    [VK_KHR_win32_surface]. *)
Definition surface_only_world : world := {|
  w_res := all_ok; w_window := Some 7;
  w_inst_exts := [VK_KHR_SURFACE_EXTENSION_NAME];
  w_num_phys_devs := 1;
  w_queue_families := [{| qf_graphics := true; qf_count := 1 |}];
  w_surface_support := true;
  w_caps := {| cur_width := 1280; cur_height := 720; min_image_count := 2;
               max_image_count := 0; color_attachment_usage := true |};
  w_formats := [FormatB8G8R8A8Unorm]; w_present_modes := [PresentFifo];
  w_swapchain_images := 2 |}.

(** A memory-properties table: type 2 is [0b111], every other type [0b1]. *)
Definition sample_memory_types : nat -> Z := fun i => if Nat.eqb i 2 then 7%Z else 1%Z.

(** A machine on which [glfwCreateWindow] returns [nullptr]. *)
Definition windowless_world : world := {|
  w_res := all_ok; w_window := None;
  w_inst_exts := [VK_KHR_SURFACE_EXTENSION_NAME; VK_KHR_WIN32_SURFACE_EXTENSION_NAME];
  w_num_phys_devs := 1;
  w_queue_families := [{| qf_graphics := true; qf_count := 1 |}];
  w_surface_support := true;
  w_caps := {| cur_width := 1280; cur_height := 720; min_image_count := 2;
               max_image_count := 0; color_attachment_usage := true |};
  w_formats := [FormatB8G8R8A8Unorm]; w_present_modes := [PresentFifo];
  w_swapchain_images := 2 |}.

(** A device whose first graphics family with queues is family 2: family 0
    has queues but no graphics, family 1 has graphics but no queue. *)
Definition late_graphics_world : world := {|
  w_res := all_ok; w_window := Some 7;
  w_inst_exts := [VK_KHR_SURFACE_EXTENSION_NAME; VK_KHR_WIN32_SURFACE_EXTENSION_NAME];
  w_num_phys_devs := 2;
  w_queue_families := [{| qf_graphics := false; qf_count := 4 |};
                       {| qf_graphics := true; qf_count := 0 |};
                       {| qf_graphics := true; qf_count := 1 |};
                       {| qf_graphics := true; qf_count := 8 |}];
  w_surface_support := true;
  w_caps := {| cur_width := 1280; cur_height := 720; min_image_count := 2;
               max_image_count := 0; color_attachment_usage := true |};
  w_formats := [FormatB8G8R8A8Unorm]; w_present_modes := [PresentFifo];
  w_swapchain_images := 2 |}.

(** A device with a compute-only family and no graphics family. *)
Definition compute_only_world : world := {|
  w_res := all_ok; w_window := Some 7;
  w_inst_exts := [VK_KHR_SURFACE_EXTENSION_NAME; VK_KHR_WIN32_SURFACE_EXTENSION_NAME];
  w_num_phys_devs := 1;
  w_queue_families := [{| qf_graphics := false; qf_count := 2 |}];
  w_surface_support := true;
  w_caps := {| cur_width := 1280; cur_height := 720; min_image_count := 2;
               max_image_count := 0; color_attachment_usage := true |};
  w_formats := [FormatB8G8R8A8Unorm]; w_present_modes := [PresentFifo];
  w_swapchain_images := 2 |}.

(** [vkCreateDevice] reports [VK_ERROR_DEVICE_LOST]. *)
Definition lost_in_create_device : apicall -> vkres := fun c =>
  match c with
  | CreateDevice _ => VDeviceLost "vk::PhysicalDevice::createDeviceUnique: ErrorDeviceLost"
  | _ => VOk
  end.

(** The submission of a frame reports [VK_ERROR_DEVICE_LOST]. *)
Definition lost_in_submit : apicall -> vkres := fun c =>
  match c with
  | QueueSubmit _ _ _ _ _ => VDeviceLost "vk::Queue::submit: ErrorDeviceLost"
  | _ => VOk
  end.

(** An iteration that draws on image 0 and loses the device at submission. *)
Definition frame_lost_in_submit : frame :=
  {| fi_close := false; fi_image := 0; fi_res := lost_in_submit |}.

(** ** Reasoning about the monad *)

Definition res_state {A} (r : res A) : option scene :=
  match r with ROk _ s _ | RExc _ s _ => Some s | _ => None end.

(** [m] keeps [P] of the [Scene] whenever it returns or throws, in every
    world satisfying [W]. *)
Definition preserves {A} (W : world -> Prop) (P : scene -> Prop) (m : M A) : Prop :=
  forall w s tr, W w -> P s ->
  match m w s tr with ROk _ s' _ | RExc _ s' _ => P s' | _ => True end.

(** [m] never returns normally in a world satisfying [W]. *)
Definition never_ok {A} (W : world -> Prop) (m : M A) : Prop :=
  forall w s tr a s' tr', W w -> m w s tr <> ROk a s' tr'.

(** The sizes of the per-image vectors. *)
Definition counts (s : scene) : nat * nat * nat * nat * nat :=
  (m_swapchain_imgs s, m_swapchain_img_views s, m_framebuffers s,
   m_command_buffers s, length (m_fences s)).

(** Nothing at or after the swapchain exists yet. *)
Definition no_swapchain_yet (s : scene) : Prop :=
  m_uniq s HSwapchain = false /\ m_uniq s HRenderPass = false /\
  m_uniq s HCmdPool = false /\ m_uniq s HPipeline = false /\
  m_uniq s HDrawSemaphore = false /\ m_uniq s HPresentSemaphore = false /\
  counts s = (0, 0, 0, 0, 0).

Definition extent_mismatch (w : world) : Prop :=
  cur_width (w_caps w) <> m_width \/ cur_height (w_caps w) <> m_height.

(** The iterations of the frame loop, taken one after the other. *)
Fixpoint iterations (frames : list frame) : M unit :=
  match frames with
  | [] => ret tt
  | f :: fs => _ <- loop_iteration f;; iterations fs
  end.

Definition main_events (r : main_result) : list event :=
  match r with MExit _ evs | MHang evs | MUB evs | MTerminate evs => evs end.

(** The events the second lifecycle may show after [initialize()]. *)
Definition reinit_tail_event (e : event) : bool :=
  match e with
  | Cout _ | Cerr _ | CallShutdown 2 | SystemPause => true
  | _ => false
  end.

(** [P] survives any change of the fence states. *)
Definition fence_stable (P : scene -> Prop) : Prop :=
  forall s k f, P s -> P (set_fences (list_set (m_fences s) k f) s).

Definition holds_after {A} (P : scene -> Prop) (r : res A) : Prop :=
  match r with ROk _ s _ | RExc _ s _ => P s | _ => True end.

Definition window_set (s : scene) : Prop := m_window s <> PIndet.

(** The [Scene] objects [main] constructs, in order. *)
Definition constructed (evs : list event) : list event :=
  filter (fun e => match e with ConstructScene _ => true | _ => false end) evs.

Definition fence_signaled_at (i : nat) (s : scene) : Prop :=
  nth_error (m_fences s) i = Some FSignaled.

(** The [Scene] events of the first lifecycle before its [try] ends. *)
Definition first_events (w1 : world) : list event :=
  [ConstructScene 1; CallInitialize 1] ++
  match initialize w1 new_scene [] with ROk _ _ _ => [CallRun 1] | _ => [] end.

Lemma bind_ok_inv {A B} (m : M A) (f : A -> M B) w s tr b s'' tr'' :
  bind m f w s tr = ROk b s'' tr'' ->
  exists a s' tr', m w s tr = ROk a s' tr' /\ f a w s' tr' = ROk b s'' tr''.
Proof. unfold bind. destruct (m w s tr); try discriminate. eauto. Qed.

Ltac unfold_m H :=
  cbv beta iota zeta delta [bind ret get modify asks emit call throw ub diverge
    index_check ptr_truth catch_all with_res for_from] in H.

Ltac crush_ok H :=
  repeat (unfold_m H;
          match type of H with
          | context [match ?x with _ => _ end] =>
              lazymatch x with
              | context [match _ with _ => _ end] => fail
              | _ => destruct x eqn:?; try discriminate H
              end
          end);
  unfold_m H; try discriminate H.

Lemma createWindowAndSurface_ok w s tr a s' tr' :
  createWindowAndSurface w s tr = ROk a s' tr' ->
  exists n, w_window w = Some n /\ s' = set_window (PWin n) s.
Proof.
  unfold createWindowAndSurface, glfwCreateWindow. intros H. crush_ok H.
  inversion H; subst; eauto.
Qed.

Ltac crush_step H := crush_ok H; inversion H; subst.

Lemma initializeVKInstance_ok w s tr a s' tr' :
  initializeVKInstance w s tr = ROk a s' tr' -> s' = set_uniq HInstance s.
Proof.
  unfold initializeVKInstance, isInstanceExtensionAvailable. intros H.
  crush_step H. reflexivity.
Qed.

Lemma selectQueueFamilyAndPhysicalDevice_ok w s tr a s' tr' :
  selectQueueFamilyAndPhysicalDevice w s tr = ROk a s' tr' ->
  exists i, s' = set_gq_fam_idx (Z.of_nat i) (set_phys_dev (Some phys_idx) s).
Proof.
  unfold selectQueueFamilyAndPhysicalDevice. intros H. crush_step H. eauto.
Qed.

Lemma initializeDevice_ok w s tr a s' tr' :
  initializeDevice w s tr = ROk a s' tr' -> s' = set_uniq HDevice s.
Proof. unfold initializeDevice. intros H. crush_step H. reflexivity. Qed.

Lemma createSurface_ok w s tr a s' tr' :
  createSurface w s tr = ROk a s' tr' -> s' = set_uniq HSurface s.
Proof. unfold createSurface. intros H. crush_step H. reflexivity. Qed.

Lemma createSwapChainAndImages_ok w s tr a s' tr' :
  createSwapChainAndImages w s tr = ROk a s' tr' ->
  s' = set_swapchain_imgs (w_swapchain_images w) (set_uniq HSwapchain s).
Proof. unfold createSwapChainAndImages. intros H. crush_step H. reflexivity. Qed.

Lemma image_views_loop_ok w k n s tr s' tr' :
  for_from k n (fun k => call (CreateImageView k);; modify push_img_view) w s tr
    = ROk tt s' tr' ->
  s' = Nat.iter n push_img_view s.
Proof.
  revert k s tr. induction n as [|n IH]; intros k s tr H.
  - cbv in H. inversion H. reflexivity.
  - cbn [for_from] in H.
    apply bind_ok_inv in H as (a1 & s1 & tr1 & H1 & H).
    unfold bind, call, modify in H1. destruct (w_res w (CreateImageView k));
      try discriminate H1. inversion H1; subst.
    apply IH in H. subst. rewrite Nat.iter_succ_r. reflexivity.
Qed.

Lemma createSwapChainImageViews_ok w s tr a s' tr' :
  createSwapChainImageViews w s tr = ROk a s' tr' ->
  s' = Nat.iter (m_swapchain_imgs s) push_img_view s.
Proof.
  unfold createSwapChainImageViews, bind at 1, get. intros H.
  destruct a. apply image_views_loop_ok in H. exact H.
Qed.

Lemma createPass_ok w s tr a s' tr' :
  createPass w s tr = ROk a s' tr' -> s' = set_uniq HRenderPass s.
Proof. unfold createPass. intros H. crush_step H. reflexivity. Qed.

Lemma createFramebuffer_ok w s tr a s' tr' :
  createFramebuffer w s tr = ROk a s' tr' ->
  s' = push_framebuffer (push_framebuffer s).
Proof.
  unfold createFramebuffer, m_sw_num_images. intros H. crush_step H. reflexivity.
Qed.

Lemma allocateCommandBuffers_ok w s tr a s' tr' :
  allocateCommandBuffers w s tr = ROk a s' tr' ->
  s' = set_command_buffers m_sw_num_images (set_uniq HCmdPool s).
Proof. unfold allocateCommandBuffers. intros H. crush_step H. reflexivity. Qed.

Lemma createShaderInterface_ok w s tr a s' tr' :
  createShaderInterface w s tr = ROk a s' tr' -> s' = set_uniq HPipelineLayout s.
Proof. unfold createShaderInterface. intros H. crush_step H. reflexivity. Qed.

Lemma createPipeline_ok w s tr a s' tr' :
  createPipeline w s tr = ROk a s' tr' ->
  s' = set_uniq HPipeline (set_uniq HFragShader (set_uniq HVertShader s)).
Proof. unfold createPipeline. intros H. crush_step H. reflexivity. Qed.

Lemma initSyncEntities_ok w s tr a s' tr' :
  initSyncEntities w s tr = ROk a s' tr' ->
  m_fences s' = m_fences s ++ [FSignaled; FSignaled] /\
  counts s' = (m_swapchain_imgs s, m_swapchain_img_views s, m_framebuffers s,
               m_command_buffers s, length (m_fences s) + 2) /\
  m_uniq s' HDevice = m_uniq s HDevice /\ m_window s' = m_window s.
Proof.
  unfold initSyncEntities, m_sw_num_images. intros H. crush_step H.
  unfold counts; cbn. rewrite <- app_assoc, length_app. auto.
Qed.

Ltac peel H :=
  let a := fresh "a" in let s := fresh "s" in let tr := fresh "tr" in
  let H1 := fresh "Hstep" in
  apply bind_ok_inv in H as (a & s & tr & H1 & H).

Lemma iter_push_img_view k s0 :
  m_swapchain_img_views (Nat.iter k push_img_view s0) = k + m_swapchain_img_views s0
  /\ m_swapchain_imgs (Nat.iter k push_img_view s0) = m_swapchain_imgs s0
  /\ m_framebuffers (Nat.iter k push_img_view s0) = m_framebuffers s0
  /\ m_window (Nat.iter k push_img_view s0) = m_window s0
  /\ m_uniq (Nat.iter k push_img_view s0) = m_uniq s0
  /\ m_fences (Nat.iter k push_img_view s0) = m_fences s0.
Proof.
  induction k as [|k IH]; [cbn; repeat split|].
  rewrite Nat.iter_succ. destruct IH as (H1 & H2 & H3 & H4 & H5 & H6).
  set (x := Nat.iter k push_img_view s0) in *.
  unfold push_img_view; cbn. rewrite H1, H2, H3, H4, H5, H6. repeat split.
Qed.

(** What a successful [initialize()] of a fresh [Scene] leaves behind. *)
Lemma initialize_ok w tr a s tr' :
  initialize w new_scene tr = ROk a s tr' ->
  (exists n, w_window w = Some n /\ m_window s = PWin n) /\
  m_uniq s HDevice = true /\
  m_fences s = [FSignaled; FSignaled] /\
  counts s = (w_swapchain_images w, w_swapchain_images w, 2, 2, 2).
Proof.
  unfold initialize. intros H.
  peel H. apply createWindowAndSurface_ok in Hstep as (n & Hn & ->).
  peel H. apply initializeVKInstance_ok in Hstep; subst.
  peel H. apply selectQueueFamilyAndPhysicalDevice_ok in Hstep as (i & ->).
  peel H. apply initializeDevice_ok in Hstep; subst.
  peel H. apply createSurface_ok in Hstep; subst.
  peel H. apply createSwapChainAndImages_ok in Hstep; subst.
  peel H. apply createSwapChainImageViews_ok in Hstep; subst.
  peel H. apply createPass_ok in Hstep; subst.
  peel H. apply createFramebuffer_ok in Hstep; subst.
  peel H. apply allocateCommandBuffers_ok in Hstep; subst.
  peel H. apply createShaderInterface_ok in Hstep; subst.
  peel H. apply createPipeline_ok in Hstep; subst.
  apply initSyncEntities_ok in H as (Hf & Hc & Hd & Hw).
  rewrite Hf, Hc, Hd, Hw.
  set (s0 := set_swapchain_imgs (w_swapchain_images w) _).
  destruct (iter_push_img_view (m_swapchain_imgs s0) s0) as (H1 & H2 & H3 & H4 & H5 & H6).
  set (x := Nat.iter (m_swapchain_imgs s0) push_img_view s0) in *.
  clearbody x. subst s0. cbn in *.
  unfold counts. cbn. rewrite H1, H2, H3, H4, H5, H6. cbn.
  repeat split; eauto. f_equal. f_equal. f_equal. f_equal. lia.
Qed.

(** *** Invariants kept through returns and exceptions *)

Section Preserve.
Context {W : world -> Prop} {P : scene -> Prop}.

Lemma preserves_bind {A B} (m : M A) (f : A -> M B) :
  preserves W P m -> (forall a, preserves W P (f a)) -> preserves W P (bind m f).
Proof.
  intros Hm Hf w s tr Hw Hs. specialize (Hm w s tr Hw Hs). unfold bind.
  destruct (m w s tr) as [a s' tr'|e s' tr'|tr'|tr']; auto.
  exact (Hf a w s' tr' Hw Hm).
Qed.

(** A first step that never returns normally hides the rest. *)
Lemma preserves_bind_never {A B} (m : M A) (f : A -> M B) :
  preserves W P m -> never_ok W m -> preserves W P (bind m f).
Proof.
  intros Hm Hn w s tr Hw Hs. specialize (Hm w s tr Hw Hs). unfold bind.
  destruct (m w s tr) as [a s' tr'|e s' tr'|tr'|tr'] eqn:E; auto.
  exfalso. exact (Hn w s tr a s' tr' Hw E).
Qed.

Lemma preserves_ret {A} (a : A) : preserves W P (ret a).
Proof. intros w s tr _ Hs. exact Hs. Qed.

Lemma preserves_get : preserves W P get.
Proof. intros w s tr _ Hs. exact Hs. Qed.

Lemma preserves_asks {A} (f : world -> A) : preserves W P (asks f).
Proof. intros w s tr _ Hs. exact Hs. Qed.

Lemma preserves_emit c : preserves W P (emit c).
Proof. intros w s tr _ Hs. exact Hs. Qed.

Lemma preserves_call c : preserves W P (call c).
Proof. intros w s tr _ Hs. unfold call. destruct (w_res w c); exact Hs || exact I. Qed.

Lemma preserves_throw {A} e : preserves W P (@throw A e).
Proof. intros w s tr _ Hs. exact Hs. Qed.

Lemma preserves_ub {A} : preserves W P (@ub A).
Proof. intros w s tr _ _. exact I. Qed.

Lemma preserves_diverge {A} : preserves W P (@diverge A).
Proof. intros w s tr _ _. exact I. Qed.

Lemma preserves_index_check n i : preserves W P (index_check n i).
Proof. unfold index_check. destruct (i <? n); [apply preserves_ret | apply preserves_ub]. Qed.

Lemma preserves_ptr_truth p : preserves W P (ptr_truth p).
Proof. destruct p; cbn; [apply preserves_ub | apply preserves_ret | apply preserves_ret]. Qed.

Lemma preserves_modify f : (forall s, P s -> P (f s)) -> preserves W P (modify f).
Proof. intros Hf w s tr _ Hs. exact (Hf s Hs). Qed.

Lemma preserves_catch_all m : preserves W P m -> preserves W P (catch_all m).
Proof.
  intros Hm w s tr Hw Hs. specialize (Hm w s tr Hw Hs). unfold catch_all.
  destruct (m w s tr); exact Hm.
Qed.

Lemma preserves_with_res {A} r (m : M A) :
  (forall w, W w -> W (world_with_res r w)) -> preserves W P m ->
  preserves W P (with_res r m).
Proof. intros HW Hm w s tr Hw Hs. exact (Hm _ s tr (HW w Hw) Hs). Qed.

Lemma preserves_for_from k n body :
  (forall i, preserves W P (body i)) -> preserves W P (for_from k n body).
Proof.
  intros Hb. revert k. induction n as [|n IH]; intros k; cbn.
  - apply preserves_ret.
  - apply preserves_bind; auto.
Qed.

Lemma never_ok_bind_l {A B} (m : M A) (f : A -> M B) :
  never_ok W m -> never_ok W (bind m f).
Proof.
  intros Hn w s tr b s'' tr'' Hw H. apply bind_ok_inv in H as (a & s' & tr' & H & _).
  exact (Hn w s tr a s' tr' Hw H).
Qed.

Lemma never_ok_bind_r {A B} (m : M A) (f : A -> M B) :
  (forall a, never_ok W (f a)) -> never_ok W (bind m f).
Proof.
  intros Hn w s tr b s'' tr'' Hw H. apply bind_ok_inv in H as (a & s' & tr' & _ & H).
  exact (Hn a w s' tr' b s'' tr'' Hw H).
Qed.

End Preserve.


Lemma preserves_set_fence W P k f :
  (forall s, P s -> P (set_fences (list_set (m_fences s) k f) s)) ->
  preserves W P (set_fence k f).
Proof. intros HP w s tr _ Hs. exact (HP s Hs). Qed.

Lemma preserves_waitForFences W P k b t :
  (forall s, P s -> P (set_fences (list_set (m_fences s) k FSignaled) s)) ->
  preserves W P (waitForFences k b t).
Proof.
  intros HP w s tr _ Hs. unfold waitForFences.
  destruct (nth_error (m_fences s) k) as [f|]; [|exact I].
  destruct (w_res w (WaitForFences k b t)), f; auto.
Qed.

Lemma preserves_acquire_bind {B} W P t sem j (f : nat -> M B) :
  preserves W P (f j) -> preserves W P (bind (acquireNextImageKHR t sem j) f).
Proof.
  intros Hf w s tr Hw Hs. cbv [bind acquireNextImageKHR call ret].
  destruct (w_res w (AcquireNextImage t sem)); auto.
  exact (Hf w s _ Hw Hs).
Qed.

Lemma preserves_glfwCreateWindow W P a b : preserves W P (glfwCreateWindow a b).
Proof. intros w s tr _ Hs. exact Hs. Qed.

Ltac prv :=
  repeat match goal with
  | |- preserves _ _ (bind (acquireNextImageKHR _ _ _) _) => apply preserves_acquire_bind
  | |- preserves _ _ (bind _ _) => apply preserves_bind; [|intros ?]
  | |- preserves _ _ (glfwCreateWindow _ _) => apply preserves_glfwCreateWindow
  | |- preserves _ _ (ret _) => apply preserves_ret
  | |- preserves _ _ get => apply preserves_get
  | |- preserves _ _ (asks _) => apply preserves_asks
  | |- preserves _ _ (emit _) => apply preserves_emit
  | |- preserves _ _ (call _) => apply preserves_call
  | |- preserves _ _ (throw _) => apply preserves_throw
  | |- preserves _ _ ub => apply preserves_ub
  | |- preserves _ _ diverge => apply preserves_diverge
  | |- preserves _ _ (index_check _ _) => apply preserves_index_check
  | |- preserves _ _ (ptr_truth _) => apply preserves_ptr_truth
  | |- preserves _ _ (modify _) => apply preserves_modify
  | |- preserves _ _ (catch_all _) => apply preserves_catch_all
  | |- preserves _ _ (with_res _ _) => apply preserves_with_res; [intros; assumption|]
  | |- preserves _ _ (for_from _ _ _) => apply preserves_for_from; intros ?
  | |- preserves _ _ (set_fence _ _) => apply preserves_set_fence
  | |- preserves _ _ (waitForFences _ _ _) => apply preserves_waitForFences
  | |- preserves _ _ (if ?b then _ else _) => destruct b
  | |- preserves _ _ (match ?x with _ => _ end) => destruct x
  end.

(** *** The frame loop changes nothing but fence states *)

Lemma frame_body_preserves P i :
  fence_stable P -> preserves (fun _ => True) P (frame_body i).
Proof.
  intros HP. unfold frame_body, resetFences, buildCommandBuffer, submit, presentKHR.
  prv; intros s0 H0; apply HP; exact H0.
Qed.

Lemma run_loop_preserves P frames :
  fence_stable P -> preserves (fun _ => True) P (run_loop frames).
Proof.
  intros HP. induction frames as [|f fs IH]; cbn [run_loop].
  - apply preserves_diverge.
  - unfold loop_iteration, glfwWindowShouldClose. prv; auto.
    apply frame_body_preserves, HP.
Qed.


Lemma length_list_set {A} (l : list A) k x : length (list_set l k x) = length l.
Proof.
  revert k. induction l as [|y l IH]; intros [|k]; cbn; auto.
Qed.


(** *** shutdown *)

Lemma shutdown_state w s tr :
  match shutdown w s tr with ROk _ s' _ | RExc _ s' _ => s' = s | _ => True end.
Proof.
  assert (H : preserves (fun _ => True) (fun s' => s' = s) shutdown)
    by (unfold shutdown; prv).
  exact (H w s tr I eq_refl).
Qed.

Lemma shutdown_no_throw w s tr e s' tr' : shutdown w s tr <> RExc e s' tr'.
Proof.
  cbv [shutdown catch_all bind get call ret ptr_truth emit ub].
  destruct (m_uniq s HDevice); [destruct (w_res w DeviceWaitIdle)|];
    destruct (m_window s); discriminate.
Qed.

Lemma shutdown_returns w s tr :
  m_window s <> PIndet -> w_res w DeviceWaitIdle <> VHang ->
  exists tr', shutdown w s tr = ROk tt s tr'.
Proof.
  intros Hw Hi. cbv [shutdown catch_all bind get call ret ptr_truth emit ub].
  destruct (m_uniq s HDevice); [destruct (w_res w DeviceWaitIdle); try congruence|];
    destruct (m_window s); try congruence; cbv beta iota; eauto.
Qed.

(** *** The window pointer is set by the first step of [initialize()] *)


Lemma establish_then {A B} (P : scene -> Prop) (m : M A) (f : A -> M B) :
  (forall w s tr, holds_after P (m w s tr)) ->
  (forall a, preserves (fun _ => True) P (f a)) ->
  forall w s tr, holds_after P (bind m f w s tr).
Proof.
  intros Hm Hf w s tr. specialize (Hm w s tr). unfold bind, holds_after in *.
  destruct (m w s tr) as [a s' tr'|e s' tr'|tr'|tr']; auto.
  exact (Hf a w s' tr' I Hm).
Qed.


Lemma window_set_stable : fence_stable window_set.
Proof. intros s k f H. exact H. Qed.

Lemma initialize_window_set w s tr : holds_after window_set (initialize w s tr).
Proof.
  unfold initialize. apply establish_then.
  - intros w' s' tr'. unfold createWindowAndSurface, glfwCreateWindow,
      holds_after, window_set, bind, emit, modify, throw, ret.
    destruct (w_window w'); cbn; discriminate.
  - intros _. unfold initializeVKInstance, isInstanceExtensionAvailable,
      selectQueueFamilyAndPhysicalDevice, initializeDevice, createSurface,
      createSwapChainAndImages, createSwapChainImageViews, createPass,
      createFramebuffer, allocateCommandBuffers, createShaderInterface,
      createPipeline, initSyncEntities.
    prv; intros s1 H1; exact H1.
Qed.

(** The [try] block of the first lifecycle: [initialize(); run();]. *)
Lemma try_block_window_set w frames tr :
  holds_after window_set ((initialize;; run frames) w new_scene tr).
Proof.
  apply establish_then.
  - intros. apply initialize_window_set.
  - intros _. apply run_loop_preserves, window_set_stable.
Qed.

(** *** One fence slot is left alone by the iterations using other slots *)

Lemma nth_error_list_set_other {A} (l : list A) k i x :
  k <> i -> nth_error (list_set l k x) i = nth_error l i.
Proof.
  revert k i. induction l as [|y l IH]; intros [|k] [|i] Hki; cbn;
    try congruence; auto.
Qed.

Lemma frame_body_keeps_other_fence i j :
  j <> i -> preserves (fun _ => True) (fence_signaled_at i) (frame_body j).
Proof.
  intros Hji. unfold frame_body, resetFences, buildCommandBuffer, submit, presentKHR.
  prv; intros s0 H0; unfold fence_signaled_at in *; cbn;
    rewrite nth_error_list_set_other; assumption.
Qed.

Lemma iterations_keep_other_fence i pre :
  Forall (fun f => fi_image f <> i) pre ->
  preserves (fun _ => True) (fence_signaled_at i) (iterations pre).
Proof.
  induction 1 as [|f fs Hf _ IH]; cbn [iterations].
  - apply preserves_ret.
  - apply preserves_bind; [|intros _; exact IH].
    unfold loop_iteration, glfwWindowShouldClose. prv.
    apply frame_body_keeps_other_fence. exact Hf.
Qed.

(** An iteration that does not see the close flag does not break. *)
Lemma loop_iteration_open f w s tr a s' tr' :
  fi_close f = false -> loop_iteration f w s tr = ROk a s' tr' -> a = false.
Proof.
  intros Hf H. unfold loop_iteration, with_res, glfwWindowShouldClose in H.
  apply bind_ok_inv in H as (? & ? & ? & _ & H).
  apply bind_ok_inv in H as (c & ? & ? & Hc & H).
  unfold bind, emit, ret in Hc. inversion Hc; subst. rewrite Hf in H.
  apply bind_ok_inv in H as (? & ? & ? & _ & H). inversion H. reflexivity.
Qed.

(** The frame loop, run over iterations that do not close the window, is
    these iterations followed by the rest of the loop. *)
Lemma run_loop_app pre rest w s tr :
  Forall (fun f => fi_close f = false) pre ->
  run_loop (pre ++ rest) w s tr = bind (iterations pre) (fun _ => run_loop rest) w s tr.
Proof.
  intros Hpre. revert s tr. induction Hpre as [|f fs Hf _ IH]; intros s tr.
  - reflexivity.
  - cbn [app run_loop iterations]. cbv [bind].
    destruct (loop_iteration f w s tr) as [a s' tr'|e s' tr'|tr'|tr'] eqn:E;
      try reflexivity.
    rewrite (loop_iteration_open f w s tr a s' tr' Hf E). apply IH.
Qed.

Lemma wait_on_signaled_fence_returns i b w s tr tr' :
  fence_signaled_at i s -> waitForFences i b UINT64_MAX w s tr <> RHang tr'.
Proof.
  unfold fence_signaled_at, waitForFences. intros H. rewrite H.
  destruct (w_res w (WaitForFences i b UINT64_MAX)); discriminate.
Qed.

(** *** main, around the first [try] block *)

Lemma main_eq w1 frames w2 :
  main w1 frames w2 =
  match (initialize;; run frames) w1 new_scene [] with
  | ROk _ s _ => main_after_first w1 w2 s (first_events w1) false 0
  | RExc e s _ =>
      if is_device_lost e
      then main_after_first w1 w2 s (first_events w1 ++ [Cerr "Device Lost, re-init..."]) true 0
      else main_after_first w1 w2 s (first_events w1 ++ [Cerr (error_line e)]) false 1
  | RHang _ => MHang (first_events w1)
  | RUB _ => MUB (first_events w1)
  end.
Proof.
  unfold main, first_events. cbv [bind].
  destruct (initialize w1 new_scene []); reflexivity.
Qed.

Lemma main_after_first_ok w1 w2 s evs dl rv :
  window_set s -> w_res w1 DeviceWaitIdle <> VHang ->
  main_after_first w1 w2 s evs dl rv =
  (if dl then main_reinit w2 (evs ++ [CallShutdown 1]) rv
   else MExit rv (evs ++ [CallShutdown 1])).
Proof.
  intros Hw Hi. unfold main_after_first, main_shutdown.
  destruct (shutdown_returns w1 s [] Hw Hi) as [tr' ->]. destruct dl; reflexivity.
Qed.

Lemma main_after_device_loss w1 frames w2 m s tr :
  w_res w1 DeviceWaitIdle <> VHang ->
  (initialize;; run frames) w1 new_scene [] = RExc (DeviceLostError m) s tr ->
  main w1 frames w2 =
  main_reinit w2 (first_events w1 ++ [Cerr "Device Lost, re-init..."; CallShutdown 1]) 0.
Proof.
  intros Hi E. rewrite main_eq, E. cbn [is_device_lost].
  pose proof (try_block_window_set w1 frames []) as Hw. rewrite E in Hw.
  rewrite main_after_first_ok by assumption. rewrite <- app_assoc. reflexivity.
Qed.

Lemma main_reinit_events w2 evs rv :
  exists tail,
    main_events (main_reinit w2 evs rv) = evs ++ [ConstructScene 2; CallInitialize 2] ++ tail /\
    forallb reinit_tail_event tail = true /\
    match initialize w2 new_scene [] with
    | ROk _ _ _ | RExc _ _ _ => In (CallShutdown 2) tail
    | _ => True
    end.
Proof.
  unfold main_reinit, main_shutdown.
  destruct (initialize w2 new_scene []) as [a s tr|e s tr|tr|tr];
    [destruct (shutdown w2 s [])|destruct (shutdown w2 s [])| |];
    cbn [main_events]; rewrite <- ?app_assoc; eexists;
    (split; [reflexivity|]); cbn; split; auto 10.
Qed.

Lemma constructed_app l1 l2 : constructed (l1 ++ l2) = constructed l1 ++ constructed l2.
Proof. apply filter_app. Qed.

Lemma constructed_reinit_tail tail :
  forallb reinit_tail_event tail = true -> constructed tail = [].
Proof.
  induction tail as [|e tail IH]; cbn; [reflexivity|].
  intros H. apply andb_prop in H as [He Ht].
  destruct e as [k|k|k|k|l|l|]; cbn in He |- *; try discriminate; auto.
Qed.

Lemma main_reinit_fails w2 evs rv e s tr :
  initialize w2 new_scene [] = RExc e s tr -> w_res w2 DeviceWaitIdle <> VHang ->
  exists evs', main_reinit w2 evs rv = MExit 1 evs'.
Proof.
  intros E Hi. unfold main_reinit. rewrite E. unfold main_shutdown.
  pose proof (initialize_window_set w2 new_scene []) as Hw. rewrite E in Hw.
  destruct (shutdown_returns w2 s [] Hw Hi) as [tr' ->]. eexists; reflexivity.
Qed.

Lemma main_reinit_succeeds w2 evs rv s tr :
  initialize w2 new_scene [] = ROk tt s tr -> w_res w2 DeviceWaitIdle <> VHang ->
  exists evs', main_reinit w2 evs rv = MExit rv evs'.
Proof.
  intros E Hi. unfold main_reinit. rewrite E. unfold main_shutdown.
  pose proof (initialize_window_set w2 new_scene []) as Hw. rewrite E in Hw.
  destruct (shutdown_returns w2 s [] Hw Hi) as [tr' ->]. eexists; reflexivity.
Qed.

(** *** The extent check comes after the device is created *)

Lemma createSwapChainAndImages_mismatch w s tr :
  extent_mismatch w ->
  match createSwapChainAndImages w s tr with
  | ROk _ _ _ => False
  | RExc _ s' _ => s' = s
  | _ => True
  end.
Proof.
  intros Hw.
  assert (Hb : (negb (m_width =? cur_width (w_caps w)) ||
                negb (m_height =? cur_height (w_caps w))) = true).
  { destruct Hw as [H|H]; apply not_eq_sym, Nat.eqb_neq in H; rewrite H;
      [reflexivity | apply orb_true_r]. }
  unfold createSwapChainAndImages. cbv [bind call asks throw].
  destruct (w_res w GetSurfaceCapabilities); try exact I; try reflexivity.
  rewrite Hb. reflexivity.
Qed.

Lemma no_swapchain_new_scene : no_swapchain_yet new_scene.
Proof. repeat split. Qed.

(** *** The frame loop *)

Lemma run_loop_close f fs w s tr :
  fi_close f = true ->
  run_loop (f :: fs) w s tr = ROk tt s (tr ++ [GlfwPollEvents; GlfwWindowShouldClose]).
Proof.
  intros H. destruct f as [c i r]; cbn in H; subst c. cbn [run_loop].
  cbv [loop_iteration with_res bind emit glfwWindowShouldClose ret].
  rewrite <- app_assoc. reflexivity.
Qed.

Lemma reinit_tail_no_run tail :
  forallb reinit_tail_event tail = true -> forall k, ~ In (CallRun k) tail.
Proof.
  intros H k Hin. rewrite forallb_forall in H. specialize (H _ Hin). discriminate H.
Qed.

Lemma first_events_no_run2 w1 : ~ In (CallRun 2) (first_events w1).
Proof. unfold first_events. destruct (initialize w1 new_scene []); cbn; intuition discriminate. Qed.

(** ** The claims *)

(** C1: after a device loss raised by [initialize()] or [run()] of the
    first [Scene], [main] takes the device-loss branch (its console line),
    still shuts the first [Scene] down, then constructs a second [Scene] and
    calls [initialize()] on it; what follows is only console output,
    [shutdown()] of the second [Scene] and the pause, so [run()] is never
    called on the second [Scene].  Without a device loss no second [Scene]
    is ever constructed, and once the first lifecycle has returned or
    thrown, [main] returns right after shutting the first [Scene] down (on
    an error, after printing it).  Both halves assume that [waitIdle] in the
    first [shutdown()] does not block forever. *)
Theorem main_reinit_protocol w1 frames w2 :
  w_res w1 DeviceWaitIdle <> VHang ->
  (forall m s tr,
     (initialize;; run frames) w1 new_scene [] = RExc (DeviceLostError m) s tr ->
     exists tail,
       main_events (main w1 frames w2) =
         first_events w1 ++
         [Cerr "Device Lost, re-init..."; CallShutdown 1; ConstructScene 2; CallInitialize 2]
         ++ tail /\
       forallb reinit_tail_event tail = true /\
       ~ In (CallRun 2) (main_events (main w1 frames w2))) /\
  ((forall e s tr, (initialize;; run frames) w1 new_scene [] = RExc e s tr ->
                   is_device_lost e = false) ->
   ~ In (ConstructScene 2) (main_events (main w1 frames w2)) /\
   ((exists a s tr, (initialize;; run frames) w1 new_scene [] = ROk a s tr) \/
    (exists e s tr, (initialize;; run frames) w1 new_scene [] = RExc e s tr) ->
    exists code lines,
      main w1 frames w2 = MExit code (first_events w1 ++ lines ++ [CallShutdown 1]) /\
      (lines = [] \/ exists e, lines = [Cerr (error_line e)]))).
Proof.
  intros Hi. split.
  - intros m s tr E. rewrite (main_after_device_loss w1 frames w2 m s tr Hi E).
    destruct (main_reinit_events w2
      (first_events w1 ++ [Cerr "Device Lost, re-init..."; CallShutdown 1]) 0)
      as (tail & H1 & H2 & _).
    exists tail. rewrite H1, <- app_assoc. split; [reflexivity | split; [assumption|]].
    pose proof (first_events_no_run2 w1). pose proof (reinit_tail_no_run tail H2 2).
    rewrite !in_app_iff. cbn [In]. intuition discriminate.
  - intros Hnl. split.
    + rewrite main_eq.
      destruct ((initialize;; run frames) w1 new_scene []) as [a s tr|e s tr|tr|tr] eqn:E;
        [|rewrite (Hnl e s tr eq_refl)| |];
        unfold main_after_first, main_shutdown;
        try destruct (shutdown w1 s []);
        unfold first_events; destruct (initialize w1 new_scene []); cbn;
        intuition discriminate.
    + intros Hterm. rewrite main_eq. pose proof (try_block_window_set w1 frames []) as Hw.
      destruct ((initialize;; run frames) w1 new_scene []) as [a s tr|e s tr|tr|tr] eqn:E.
      * rewrite main_after_first_ok by assumption. exists 0%Z, []. auto.
      * rewrite (Hnl e s tr eq_refl). rewrite main_after_first_ok by assumption.
        exists 1%Z, [Cerr (error_line e)]. rewrite <- app_assoc. split; [reflexivity|eauto].
      * destruct Hterm as [(? & ? & ? & H)|(? & ? & ? & H)]; discriminate H.
      * destruct Hterm as [(? & ? & ? & H)|(? & ? & ? & H)]; discriminate H.
Qed.

Lemma main_reinit_protocol_witness :
  exists tail,
    main_events (main good_world [frame_lost_in_submit] good_world) =
      first_events good_world ++
      [Cerr "Device Lost, re-init..."; CallShutdown 1; ConstructScene 2; CallInitialize 2]
      ++ tail /\
    forallb reinit_tail_event tail = true.
Proof.
  destruct (main_reinit_protocol good_world [frame_lost_in_submit] good_world
              ltac:(cbv; discriminate)) as [HA _].
  edestruct HA as (tail & H1 & H2 & _).
  - cbv. reflexivity.
  - exists tail. split; assumption.
Defined.

(** C2 (code bug): [shutdown()] never throws, but it is not idempotent:
    after a successful [initialize()] a second [shutdown()] destroys the same
    window again, because [m_window] is never reset; and on a [Scene] that
    was never initialized it tests the uninitialized [m_window]. *)
Theorem shutdown_twice_destroys_window_twice :
  (forall w s tr e s' tr', shutdown w s tr <> RExc e s' tr') /\
  match initialize good_world new_scene [] with
  | ROk _ s _ =>
      (shutdown;; shutdown) good_world s [] =
      ROk tt s [DeviceWaitIdle; GlfwDestroyWindow (PWin 7); GlfwTerminate;
                DeviceWaitIdle; GlfwDestroyWindow (PWin 7); GlfwTerminate]
  | _ => False
  end /\
  shutdown good_world new_scene [] = RUB [].
Proof.
  split; [exact shutdown_no_throw|].
  split; vm_compute; reflexivity.
Qed.

(** C3 (corrected): when the requested 1280x720 differs from the surface's
    current extent, [initialize()] never succeeds, and the [Scene] it leaves
    holds no swapchain, render pass, command pool, pipeline or semaphore and
    no per-image object; the instance, the device and the surface may
    already exist. *)
Theorem initialize_extent_mismatch w tr :
  extent_mismatch w ->
  match initialize w new_scene tr with
  | ROk _ _ _ => False
  | RExc _ s _ => no_swapchain_yet s
  | _ => True
  end.
Proof.
  intros Hw.
  assert (Hp : preserves extent_mismatch no_swapchain_yet createSwapChainAndImages).
  { intros w' s tr' Hw' Hs. pose proof (createSwapChainAndImages_mismatch w' s tr' Hw') as H.
    destruct (createSwapChainAndImages w' s tr'); [contradiction | subst; exact Hs | exact I | exact I]. }
  assert (Hn : never_ok extent_mismatch createSwapChainAndImages).
  { intros w' s tr' a s' tr'' Hw' E. pose proof (createSwapChainAndImages_mismatch w' s tr' Hw') as H.
    rewrite E in H. exact H. }
  assert (HP : preserves extent_mismatch no_swapchain_yet initialize).
  { unfold initialize, createWindowAndSurface, initializeVKInstance,
      isInstanceExtensionAvailable, selectQueueFamilyAndPhysicalDevice,
      initializeDevice, createSurface.
    do 5 (apply preserves_bind;
          [prv; intros s0 H0; unfold no_swapchain_yet, counts in *; cbn in *; exact H0
          | intros _]).
    apply preserves_bind_never; assumption. }
  assert (HN : never_ok extent_mismatch initialize).
  { unfold initialize. do 5 (apply never_ok_bind_r; intros _).
    apply never_ok_bind_l. exact Hn. }
  specialize (HP w new_scene tr Hw no_swapchain_new_scene).
  destruct (initialize w new_scene tr) as [a s tr'|e s tr'|tr'|tr'] eqn:E; auto.
  exact (HN w new_scene tr a s tr' Hw E).
Qed.

Lemma initialize_extent_mismatch_witness :
  match initialize (sample_world all_ok 800 600 2) new_scene [] with
  | ROk _ _ _ => False
  | RExc _ s _ => no_swapchain_yet s
  | _ => True
  end.
Proof.
  apply initialize_extent_mismatch. left. cbv. discriminate.
Defined.

(** C3 counterexample: with an 800x600 surface [initialize()] fails at the
    extent check with the logical device already created. *)
Lemma extent_mismatch_after_device_creation :
  match initialize (sample_world all_ok 800 600 2) new_scene [] with
  | RExc e s _ =>
      e = RuntimeError "chosen image size not supported by window surface" /\
      m_uniq s HDevice = true
  | _ => False
  end.
Proof. vm_compute. split; reflexivity. Qed.

(** C4 (corrected): the device-loss handler covers the whole first [try]
    block: a device loss raised by [initialize()], or by [run()] after a
    successful [initialize()], leads to exactly one re-creation (two [Scene]
    objects in all), and a device loss (or any error) raised by the
    re-initialization is handled as a generic error: exit code 1. *)
Theorem device_loss_handler_covers_initialize w1 frames w2 :
  w_res w1 DeviceWaitIdle <> VHang ->
  ((exists m s tr, initialize w1 new_scene [] = RExc (DeviceLostError m) s tr) \/
   (exists s tr m s' tr', initialize w1 new_scene [] = ROk tt s tr /\
                          run frames w1 s tr = RExc (DeviceLostError m) s' tr')) ->
  constructed (main_events (main w1 frames w2)) = [ConstructScene 1; ConstructScene 2] /\
  ((exists e s tr, initialize w2 new_scene [] = RExc e s tr) ->
   w_res w2 DeviceWaitIdle <> VHang ->
   exists evs, main w1 frames w2 = MExit 1 evs).
Proof.
  intros Hi Hd.
  assert (E : exists m s tr,
             (initialize;; run frames) w1 new_scene [] = RExc (DeviceLostError m) s tr).
  { destruct Hd as [(m & s & tr & E) | (s & tr & m & s' & tr' & E1 & E2)].
    - exists m, s, tr. cbv [bind]. rewrite E. reflexivity.
    - exists m, s', tr'. cbv [bind]. rewrite E1. exact E2. }
  destruct E as (m & s & tr & E).
  rewrite (main_after_device_loss w1 frames w2 m s tr Hi E). split.
  - destruct (main_reinit_events w2
      (first_events w1 ++ [Cerr "Device Lost, re-init..."; CallShutdown 1]) 0)
      as (tail & H1 & H2 & _).
    rewrite H1, !constructed_app, (constructed_reinit_tail tail H2).
    unfold first_events. destruct (initialize w1 new_scene []); reflexivity.
  - intros (e & s2 & tr2 & E2) Hi2. exact (main_reinit_fails w2 _ 0 e s2 tr2 E2 Hi2).
Qed.

Lemma device_loss_handler_covers_initialize_witness :
  constructed (main_events (main (sample_world lost_in_create_device 1280 720 2) [] good_world))
  = [ConstructScene 1; ConstructScene 2].
Proof.
  refine (proj1 (device_loss_handler_covers_initialize
                   (sample_world lost_in_create_device 1280 720 2) [] good_world _ _)).
  - cbv. discriminate.
  - left. do 3 eexists. cbv. reflexivity.
Defined.

(** C4 counterexample: [vkCreateDevice] reports a device loss inside
    [initialize()]; the handler catches it and a second [Scene] is made. *)
Lemma device_loss_in_initialize_recreates :
  main (sample_world lost_in_create_device 1280 720 2) [] good_world =
  MExit 0 [ConstructScene 1; CallInitialize 1;
           Cerr "Device Lost, re-init..."; CallShutdown 1;
           ConstructScene 2; CallInitialize 2;
           Cout "re-initialization successful"; CallShutdown 2; SystemPause].
Proof. vm_compute. reflexivity. Qed.

(** C5: the exit code of [main] (when no [waitIdle] in a [shutdown()]
    blocks forever): 0 when the window is closed at the first poll, 0 on a
    first lifecycle that ends normally, 0 after a device loss and a
    successful re-initialization, 1 after an error other than a device loss
    in the first lifecycle, 1 after a device loss and a failed
    re-initialization. *)
Theorem main_exit_codes w1 frames w2 :
  w_res w1 DeviceWaitIdle <> VHang -> w_res w2 DeviceWaitIdle <> VHang ->
  (forall s tr, initialize w1 new_scene [] = ROk tt s tr ->
   (exists f fs, frames = f :: fs /\ fi_close f = true) ->
   exists evs, main w1 frames w2 = MExit 0 evs) /\
  (forall s tr, (initialize;; run frames) w1 new_scene [] = ROk tt s tr ->
   exists evs, main w1 frames w2 = MExit 0 evs) /\
  (forall m s tr, (initialize;; run frames) w1 new_scene [] = RExc (DeviceLostError m) s tr ->
   (exists s2 tr2, initialize w2 new_scene [] = ROk tt s2 tr2) ->
   exists evs, main w1 frames w2 = MExit 0 evs) /\
  (forall e s tr, (initialize;; run frames) w1 new_scene [] = RExc e s tr ->
   is_device_lost e = false ->
   exists evs, main w1 frames w2 = MExit 1 evs) /\
  (forall m s tr, (initialize;; run frames) w1 new_scene [] = RExc (DeviceLostError m) s tr ->
   (exists e s2 tr2, initialize w2 new_scene [] = RExc e s2 tr2) ->
   exists evs, main w1 frames w2 = MExit 1 evs).
Proof.
  intros Hi1 Hi2.
  assert (Hok : forall s tr, (initialize;; run frames) w1 new_scene [] = ROk tt s tr ->
                exists evs, main w1 frames w2 = MExit 0 evs).
  { intros s tr E. rewrite main_eq, E.
    pose proof (try_block_window_set w1 frames []) as Hw. rewrite E in Hw.
    rewrite main_after_first_ok by assumption. eexists; reflexivity. }
  split; [|split; [exact Hok|split; [|split]]].
  - intros s tr E (f & fs & -> & Hc). apply (Hok s (tr ++ [GlfwPollEvents; GlfwWindowShouldClose])).
    cbv [bind]. rewrite E. apply run_loop_close. exact Hc.
  - intros m s tr E (s2 & tr2 & E2). rewrite (main_after_device_loss w1 frames w2 m s tr Hi1 E).
    exact (main_reinit_succeeds w2 _ 0 s2 tr2 E2 Hi2).
  - intros e s tr E Hnl. rewrite main_eq, E, Hnl.
    pose proof (try_block_window_set w1 frames []) as Hw. rewrite E in Hw.
    rewrite main_after_first_ok by assumption. eexists; reflexivity.
  - intros m s tr E (e & s2 & tr2 & E2). rewrite (main_after_device_loss w1 frames w2 m s tr Hi1 E).
    exact (main_reinit_fails w2 _ 0 e s2 tr2 E2 Hi2).
Qed.

Lemma main_exit_codes_witness :
  exists evs, main good_world [frame_ok true 0] good_world = MExit 0 evs.
Proof.
  destruct (main_exit_codes good_world [frame_ok true 0] good_world
              ltac:(cbv; discriminate) ltac:(cbv; discriminate)) as [H _].
  eapply H.
  - cbv. reflexivity.
  - exists (frame_ok true 0), []. split; reflexivity.
Defined.

(** C6: one iteration of the frame loop.  If the close flag is set it polls,
    reads the flag and leaves the loop.  Otherwise, when every call succeeds,
    the per-image vectors have 2 entries, the acquired index is below 2 and
    its fence is not one that nothing will signal, the iteration issues, in
    this order: poll, close test, acquire with no timeout on the draw
    semaphore, wait on that image's fence with no timeout, reset it, record
    the command buffer (begin, render pass over 1280x720 cleared to
    {0,0,1,1}, graphics pipeline, draw of 3 vertices and 1 instance, end of
    pass, end), submit it waiting on the draw semaphore at the
    color-attachment-output stage and signaling the present semaphore and
    the image's fence, and present waiting on the present semaphore; the
    loop then goes on with the image's fence pending. *)
Theorem run_iteration_order f fs w s tr :
  (forall c, fi_res f c = VOk) ->
  m_command_buffers s = 2 -> m_framebuffers s = 2 -> length (m_fences s) = 2 ->
  fi_image f < 2 -> nth_error (m_fences s) (fi_image f) <> Some FUnsignaled ->
  (fi_close f = true ->
   run_loop (f :: fs) w s tr = ROk tt s (tr ++ [GlfwPollEvents; GlfwWindowShouldClose])) /\
  (fi_close f = false ->
   exists s',
     nth_error (m_fences s') (fi_image f) = Some FPending /\
     run_loop (f :: fs) w s tr =
     run_loop fs w s'
       (tr ++ [GlfwPollEvents; GlfwWindowShouldClose;
               AcquireNextImage UINT64_MAX DrawSemaphore;
               WaitForFences (fi_image f) true UINT64_MAX; ResetFences (fi_image f);
               CmdBegin (fi_image f);
               CmdBeginRenderPass (fi_image f) (fi_image f) m_width m_height clear_color;
               CmdBindPipeline (fi_image f) BindGraphics;
               CmdDraw (fi_image f) 3 1 0 0;
               CmdEndRenderPass (fi_image f); CmdEnd (fi_image f);
               QueueSubmit (fi_image f) [DrawSemaphore] [ColorAttachmentOutput]
                 [PresentSemaphore] (fi_image f);
               QueuePresent [PresentSemaphore] (fi_image f)])).
Proof.
  intros Hr Hc Hf Hl Hi Hn. split; [apply run_loop_close|].
  intros Hcl. destruct f as [c i r]; cbn in *; subst c.
  destruct s as [win pd gq u si sv fb cb fns]; cbn in *; subst cb fb.
  destruct fns as [|f0 [|f1 [|]]]; cbn in Hl; try discriminate.
  cbn [run_loop].
  destruct i as [|[|i]]; [destruct f0|destruct f1|lia]; cbn in Hn;
    try (exfalso; apply Hn; reflexivity);
    cbv -[run_loop app UINT64_MAX m_width m_height clear_color];
    rewrite !Hr; cbv -[run_loop app UINT64_MAX m_width m_height clear_color];
    eexists; (split; [|rewrite <- !app_assoc; reflexivity]); reflexivity.
Qed.

Lemma run_iteration_order_witness :
  exists s',
    nth_error (m_fences s') 1 = Some FPending /\
    run_loop [frame_ok false 1; frame_ok true 0] good_world ready_scene [] =
    run_loop [frame_ok true 0] good_world s'
      [GlfwPollEvents; GlfwWindowShouldClose;
       AcquireNextImage UINT64_MAX DrawSemaphore;
       WaitForFences 1 true UINT64_MAX; ResetFences 1; CmdBegin 1;
       CmdBeginRenderPass 1 1 m_width m_height clear_color;
       CmdBindPipeline 1 BindGraphics; CmdDraw 1 3 1 0 0; CmdEndRenderPass 1; CmdEnd 1;
       QueueSubmit 1 [DrawSemaphore] [ColorAttachmentOutput] [PresentSemaphore] 1;
       QueuePresent [PresentSemaphore] 1].
Proof.
  refine (proj2 (run_iteration_order (frame_ok false 1) [frame_ok true 0] good_world
                   ready_scene [] _ _ _ _ _ _) _).
  - intros c. reflexivity.
  - reflexivity.
  - reflexivity.
  - reflexivity.
  - cbv. lia.
  - cbv. discriminate.
  - reflexivity.
Defined.

(** C7 (code bug): the code is written for exactly 2 swapchain images
    ([setMinImageCount(2)], the image-count checks against 2, and 2
    framebuffers, command buffers and fences), but it keeps every image the
    driver creates.  After a successful [initialize()] on a driver that
    creates more images, the swapchain image count (and image view count)
    is the driver's, the other counts are 2, and the frame loop keeps all
    of these counts.  An acquisition that hands out one of the extra
    images, an index of 2 or more, makes the next iteration index past the
    end of the 2-element vectors: undefined behaviour. *)
Theorem swapchain_images_beyond_two_ub w s tr f fs :
  initialize w new_scene [] = ROk tt s tr ->
  fi_close f = false -> 2 <= fi_image f -> fi_image f < w_swapchain_images w ->
  fi_res f (AcquireNextImage UINT64_MAX DrawSemaphore) = VOk ->
  counts s = (w_swapchain_images w, w_swapchain_images w, 2, 2, 2) /\
  (forall frames w' tr', holds_after (fun s' => counts s' = counts s) (run frames w' s tr')) /\
  exists tr', run (f :: fs) w s tr = RUB tr'.
Proof.
  intros E Hc Hi _ Ha. destruct (initialize_ok w [] tt s tr E) as (_ & _ & _ & Hcnt).
  split; [exact Hcnt|split].
  - intros frames w' tr'.
    assert (Hst : fence_stable (fun s' => counts s' = counts s)).
    { intros s0 k g H0. rewrite <- H0. unfold counts. cbn. rewrite length_list_set.
      reflexivity. }
    exact (run_loop_preserves _ frames Hst w' s tr' I eq_refl).
  - assert (Hlen : length (m_fences s) = 2).
    { unfold counts in Hcnt. congruence. }
    destruct f as [c i r]; cbn [fi_close fi_image fi_res] in Hc, Hi, Ha; subst c.
    unfold run. cbn [run_loop].
    cbv [bind loop_iteration with_res emit glfwWindowShouldClose ret frame_body
         acquireNextImageKHR call get index_check ub].
    cbn [w_res world_with_res fi_close fi_image fi_res]. rewrite Ha, Hlen.
    destruct (Nat.ltb_spec i 2); [lia|]. eexists. reflexivity.
Qed.

Lemma swapchain_images_beyond_two_ub_witness :
  exists s tr,
    initialize (sample_world all_ok 1280 720 3) new_scene [] = ROk tt s tr /\
    counts s = (3, 3, 2, 2, 2) /\
    exists tr', run [frame_ok false 2] (sample_world all_ok 1280 720 3) s tr = RUB tr'.
Proof.
  do 2 eexists. split; [cbv; reflexivity|].
  destruct (swapchain_images_beyond_two_ub (sample_world all_ok 1280 720 3) _ _
              (frame_ok false 2) [] ltac:(cbv; reflexivity) eq_refl
              ltac:(cbv; lia) ltac:(cbv; lia) eq_refl) as (Hc & _ & Hub).
  split; [exact Hc | exact Hub].
Defined.

(** C8: with 2 command buffers, 2 framebuffers and 2 fences, and an
    acquisition that succeeds, an iteration's body has undefined behaviour
    (an out-of-range vector access) exactly when the acquired index is not
    below 2. *)
Theorem frame_body_ub_iff i w s tr :
  m_command_buffers s = 2 -> m_framebuffers s = 2 -> length (m_fences s) = 2 ->
  w_res w (AcquireNextImage UINT64_MAX DrawSemaphore) = VOk ->
  (exists tr', frame_body i w s tr = RUB tr') <-> 2 <= i.
Proof.
  intros Hc Hf Hl Ha. split.
  - intros [tr' H]. destruct (Nat.le_gt_cases 2 i) as [|Hi]; [assumption|exfalso].
    destruct s as [win pd gq u si sv fb cb fns]; cbn in *; subst cb fb.
    destruct fns as [|f0 [|f1 [|]]]; cbn in Hl; try discriminate.
    destruct i as [|[|i]]; [| |lia]; cbv in H;
      repeat match type of H with
      | context [match ?x with _ => _ end] =>
          lazymatch x with
          | context [match _ with _ => _ end] => fail
          | _ => destruct x; cbv in H; try discriminate H
          end
      end.
  - intros H2. exists (tr ++ [AcquireNextImage UINT64_MAX DrawSemaphore]).
    cbv [frame_body bind acquireNextImageKHR call get index_check ret ub].
    rewrite Ha, Hl. apply Nat.ltb_ge in H2. rewrite H2. reflexivity.
Qed.

Lemma frame_body_ub_iff_witness :
  exists tr', frame_body 2 good_world ready_scene [] = RUB tr'.
Proof.
  apply (frame_body_ub_iff 2 good_world ready_scene []); reflexivity.
Defined.

(** C9: the fences start signaled, so on the first use of an image slot
    (every earlier iteration used the other slot and did not close the
    window) its fence is still signaled, and the wait on it returns at once
    whatever the device does. *)
Theorem first_use_of_slot_does_not_block w s tr pre rest i s' tr' :
  initialize w new_scene [] = ROk tt s tr -> i < 2 ->
  Forall (fun f => fi_close f = false /\ fi_image f <> i) pre ->
  iterations pre w s tr = ROk tt s' tr' ->
  fence_signaled_at i s /\
  run_loop (pre ++ rest) w s tr = run_loop rest w s' tr' /\
  fence_signaled_at i s' /\
  (forall w' b tr0 tr1, waitForFences i b UINT64_MAX w' s' tr0 <> RHang tr1).
Proof.
  intros E Hi Hpre Hit.
  destruct (initialize_ok w [] tt s tr E) as (_ & _ & Hf & _).
  assert (H0 : fence_signaled_at i s).
  { unfold fence_signaled_at. rewrite Hf. destruct i as [|[|i]]; [reflexivity|reflexivity|lia]. }
  assert (H1 : fence_signaled_at i s').
  { assert (Hpre' : Forall (fun f => fi_image f <> i) pre).
    { eapply Forall_impl; [|exact Hpre]. intros f [_ H]. exact H. }
    pose proof (iterations_keep_other_fence i pre Hpre' w s tr I H0) as H.
    rewrite Hit in H. exact H. }
  split; [exact H0|]. split.
  - rewrite run_loop_app.
    + cbv [bind]. rewrite Hit. reflexivity.
    + eapply Forall_impl; [|exact Hpre]. intros f [H _]. exact H.
  - split; [exact H1|]. intros w' b tr0 tr1. apply wait_on_signaled_fence_returns. exact H1.
Qed.

Lemma first_use_of_slot_does_not_block_witness :
  exists s tr s' tr',
    fence_signaled_at 0 s /\
    run_loop ([frame_ok false 1] ++ [frame_ok true 0]) good_world s tr =
      run_loop [frame_ok true 0] good_world s' tr' /\
    fence_signaled_at 0 s' /\
    (forall w' b tr0 tr1, waitForFences 0 b UINT64_MAX w' s' tr0 <> RHang tr1).
Proof.
  do 4 eexists.
  apply (first_use_of_slot_does_not_block good_world _ _ [frame_ok false 1] [frame_ok true 0] 0).
  - cbv. reflexivity.
  - lia.
  - constructor; [split; [reflexivity | cbv; lia] | constructor].
  - cbv. reflexivity.
Defined.

(** C10: when the window is created and the instance extensions can be
    enumerated, a loader without [VK_KHR_win32_surface] makes
    [initialize()] throw a [std::runtime_error] whose message names
    [VK_KHR_surface]. *)
Theorem win32_missing_names_surface w :
  w_window w <> None ->
  w_res w EnumerateInstanceExtensionProperties = VOk ->
  ~ In VK_KHR_WIN32_SURFACE_EXTENSION_NAME (w_inst_exts w) ->
  exists s tr,
    initialize w new_scene [] = RExc (RuntimeError "VK_KHR_surface is not available!") s tr.
Proof.
  intros Hw He Hn.
  assert (Hb : existsb (String.eqb VK_KHR_WIN32_SURFACE_EXTENSION_NAME) (w_inst_exts w) = false).
  { destruct (existsb _ _) eqn:E; [|reflexivity].
    apply existsb_exists in E as (x & Hx & Heq). apply String.eqb_eq in Heq. subst x.
    contradiction. }
  destruct (w_window w) as [n|] eqn:Ew; [|congruence].
  unfold initialize.
  cbv [bind createWindowAndSurface emit glfwCreateWindow modify initializeVKInstance
       isInstanceExtensionAvailable call asks ret throw].
  rewrite Ew, He. cbv beta iota.
  destruct (existsb (String.eqb VK_KHR_SURFACE_EXTENSION_NAME) (w_inst_exts w));
    cbv beta iota delta [negb]; [rewrite He, Hb; cbv beta iota delta [negb]|];
    do 2 eexists; reflexivity.
Qed.

Lemma win32_missing_names_surface_witness :
  exists s tr,
    initialize surface_only_world new_scene [] =
    RExc (RuntimeError "VK_KHR_surface is not available!") s tr.
Proof.
  apply win32_missing_names_surface.
  - cbv. discriminate.
  - reflexivity.
  - cbv. intros [H|[]]. discriminate H.
Defined.

(** ** Further properties of the code *)

(** *** selectMemoryTypeIndex *)

Lemma find_from_some p start n i :
  find_from p start n = Some i ->
  start <= i < start + n /\ p i = true /\ (forall j, start <= j < i -> p j = false).
Proof.
  revert start. induction n as [|n IH]; intros start H; cbn in H; [discriminate|].
  destruct (p start) eqn:Hp.
  - injection H as <-. split; [lia|]. split; [exact Hp|]. intros j Hj. lia.
  - destruct (IH (S start) H) as (Hr & Hi & Hb). split; [lia|]. split; [exact Hi|].
    intros j Hj. destruct (Nat.eq_dec j start) as [->|Hne]; [exact Hp|]. apply Hb. lia.
Qed.

Lemma find_from_none p start n :
  find_from p start n = None <-> (forall j, start <= j < start + n -> p j = false).
Proof.
  revert start. induction n as [|n IH]; intros start; cbn.
  - split; [intros _ j Hj; lia | reflexivity].
  - destruct (p start) eqn:Hp; split.
    + discriminate.
    + intros H. rewrite (H start) in Hp; [discriminate | lia].
    + intros H j Hj. destruct (Nat.eq_dec j start) as [->|Hne]; [exact Hp|].
      apply (proj1 (IH (S start)) H). lia.
    + intros H. apply IH. intros j Hj. apply H. lia.
Qed.

Lemma land_shiftl_1_zero b k :
  (0 <= k)%Z -> Z.land b (Z.shiftl 1 k) = 0%Z <-> Z.testbit b k = false.
Proof.
  intros Hk. rewrite Z.shiftl_1_l. split.
  - intros H. assert (Ht := f_equal (fun x => Z.testbit x k) H). cbn in Ht.
    rewrite Z.land_spec, Z.pow2_bits_true, andb_true_r, Z.bits_0 in Ht by lia. exact Ht.
  - intros H. apply Z.bits_inj'. intros n Hn. rewrite Z.land_spec, Z.bits_0.
    rewrite Z.pow2_bits_eqb by lia. destruct (Z.eqb_spec k n) as [<-|]; [rewrite H|];
      auto using andb_false_r.
Qed.

(** The loop condition: bit [i] of the mask is set and type [i] has every
    wanted flag. *)
Lemma memory_type_fits_iff b f flags i :
  memory_type_fits b f flags i = true <->
  Z.testbit b (Z.of_nat i) = true /\ Z.land (f i) flags = flags.
Proof.
  unfold memory_type_fits. rewrite andb_true_iff, negb_true_iff, !Z.eqb_neq, Z.eqb_eq.
  rewrite (land_shiftl_1_zero b (Z.of_nat i)) by lia.
  destruct (Z.testbit b (Z.of_nat i)); intuition congruence.
Qed.

Lemma memory_type_fits_false b f flags i :
  memory_type_fits b f flags i = false <->
  ~ (Z.testbit b (Z.of_nat i) = true /\ Z.land (f i) flags = flags).
Proof.
  rewrite <- memory_type_fits_iff. destruct (memory_type_fits b f flags i); intuition congruence.
Qed.

(** X1: an index [selectMemoryTypeIndex] returns is below
    [VK_MAX_MEMORY_TYPES], allowed by the requirement mask, and its type has
    every preferred flag, or else has every required flag while no allowed
    type has every preferred flag. *)
Theorem selectMemoryTypeIndex_sound b f preferred required i :
  selectMemoryTypeIndex b f preferred required = inl i ->
  i < VK_MAX_MEMORY_TYPES /\ Z.testbit b (Z.of_nat i) = true /\
  (Z.land (f i) preferred = preferred \/
   (Z.land (f i) required = required /\
    forall j, j < VK_MAX_MEMORY_TYPES ->
      ~ (Z.testbit b (Z.of_nat j) = true /\ Z.land (f j) preferred = preferred))).
Proof.
  unfold selectMemoryTypeIndex.
  destruct (find_from (memory_type_fits b f preferred) 0 VK_MAX_MEMORY_TYPES) as [k|] eqn:E1.
  - intros H. injection H as <-. apply find_from_some in E1 as (Hr & Hk & _).
    apply memory_type_fits_iff in Hk as [Hb Hf]. cbn in Hr. split; [lia|]. auto.
  - rewrite find_from_none in E1.
    destruct (negb (required =? preferred)%Z); [|discriminate].
    destruct (find_from (memory_type_fits b f required) 0 VK_MAX_MEMORY_TYPES) as [k|] eqn:E2;
      [|discriminate].
    intros H. injection H as <-. apply find_from_some in E2 as (Hr & Hk & _).
    apply memory_type_fits_iff in Hk as [Hb Hf]. cbn in Hr. split; [lia|].
    split; [exact Hb|]. right. split; [exact Hf|].
    intros j Hj. apply memory_type_fits_false, E1. cbn. lia.
Qed.

Lemma selectMemoryTypeIndex_sound_witness :
  3 < VK_MAX_MEMORY_TYPES /\ Z.testbit 14 (Z.of_nat 2) = true /\
  (Z.land (sample_memory_types 2) 6 = 6%Z \/
   (Z.land (sample_memory_types 2) 1 = 1%Z /\
    forall j, j < VK_MAX_MEMORY_TYPES ->
      ~ (Z.testbit 14 (Z.of_nat j) = true /\ Z.land (sample_memory_types j) 6 = 6%Z))).
Proof.
  split; [cbv; lia|].
  apply (selectMemoryTypeIndex_sound 14 sample_memory_types 6 1 2). vm_compute. reflexivity.
Defined.

(** X2: when some allowed memory type has every preferred flag,
    [selectMemoryTypeIndex] returns the lowest such index. *)
Theorem selectMemoryTypeIndex_first_preferred b f preferred required :
  (exists j, j < VK_MAX_MEMORY_TYPES /\
             Z.testbit b (Z.of_nat j) = true /\ Z.land (f j) preferred = preferred) ->
  exists i, selectMemoryTypeIndex b f preferred required = inl i /\
    Z.testbit b (Z.of_nat i) = true /\ Z.land (f i) preferred = preferred /\
    forall j, j < i -> ~ (Z.testbit b (Z.of_nat j) = true /\ Z.land (f j) preferred = preferred).
Proof.
  intros (j & Hj & Hbj & Hfj). unfold selectMemoryTypeIndex.
  destruct (find_from (memory_type_fits b f preferred) 0 VK_MAX_MEMORY_TYPES) as [k|] eqn:E1.
  - apply find_from_some in E1 as (_ & Hk & Hlt).
    apply memory_type_fits_iff in Hk as [Hb Hf].
    exists k. split; [reflexivity|]. split; [exact Hb|]. split; [exact Hf|].
    intros j' Hj'. apply memory_type_fits_false, Hlt. lia.
  - rewrite find_from_none in E1.
    assert (Hc : memory_type_fits b f preferred j = true) by (apply memory_type_fits_iff; auto).
    rewrite E1 in Hc; [discriminate|]. cbn. lia.
Qed.

Lemma selectMemoryTypeIndex_first_preferred_witness :
  exists i, selectMemoryTypeIndex 14 sample_memory_types 6 1 = inl i /\
    Z.testbit 14 (Z.of_nat i) = true /\ Z.land (sample_memory_types i) 6 = 6%Z /\
    forall j, j < i ->
      ~ (Z.testbit 14 (Z.of_nat j) = true /\ Z.land (sample_memory_types j) 6 = 6%Z).
Proof.
  apply selectMemoryTypeIndex_first_preferred. exists 2. split; [cbv; lia|]. vm_compute. split; reflexivity.
Defined.

(** X3: [selectMemoryTypeIndex] throws "required memory type not available"
    exactly when no allowed type has every preferred flag and either the
    required flags equal the preferred ones (the second search is skipped)
    or no allowed type has every required flag; otherwise it returns. *)
Theorem selectMemoryTypeIndex_throws_iff b f preferred required :
  selectMemoryTypeIndex b f preferred required =
    inr (RuntimeError "required memory type not available") <->
  (forall j, j < VK_MAX_MEMORY_TYPES ->
     ~ (Z.testbit b (Z.of_nat j) = true /\ Z.land (f j) preferred = preferred)) /\
  (required = preferred \/
   forall j, j < VK_MAX_MEMORY_TYPES ->
     ~ (Z.testbit b (Z.of_nat j) = true /\ Z.land (f j) required = required)).
Proof.
  assert (Hnone : forall flags,
    find_from (memory_type_fits b f flags) 0 VK_MAX_MEMORY_TYPES = None <->
    forall j, j < VK_MAX_MEMORY_TYPES ->
      ~ (Z.testbit b (Z.of_nat j) = true /\ Z.land (f j) flags = flags)).
  { intros flags. rewrite find_from_none. cbn [Nat.add].
    split; intros H j Hj; apply memory_type_fits_false; apply H; lia. }
  unfold selectMemoryTypeIndex. rewrite <- !Hnone.
  destruct (find_from (memory_type_fits b f preferred) 0 VK_MAX_MEMORY_TYPES) as [k|];
    [split; [discriminate | intros [H _]; discriminate H]|].
  destruct (Z.eqb_spec required preferred) as [Heq|Hne]; cbv beta iota delta [negb].
  - split; auto.
  - destruct (find_from (memory_type_fits b f required) 0 VK_MAX_MEMORY_TYPES) as [k|].
    + split; [discriminate|]. intros [_ [H|H]]; [contradiction | discriminate H].
    + split; auto.
Qed.

Lemma selectMemoryTypeIndex_throws_iff_witness :
  selectMemoryTypeIndex 1 sample_memory_types 6 6 =
    inr (RuntimeError "required memory type not available").
Proof.
  apply selectMemoryTypeIndex_throws_iff. split.
  - intros j Hj [Hb Hf]. destruct j as [|j].
    + vm_compute in Hf. discriminate Hf.
    + rewrite Z.bits_above_log2 in Hb; [discriminate Hb | lia | cbn; lia].
  - left. reflexivity.
Defined.

(** X4: when the required flags are among the preferred ones, the type
    [selectMemoryTypeIndex] returns has every required flag. *)
Theorem selectMemoryTypeIndex_has_required b f preferred required i :
  Z.land required preferred = required ->
  selectMemoryTypeIndex b f preferred required = inl i ->
  Z.land (f i) required = required.
Proof.
  intros Hsub H. apply selectMemoryTypeIndex_sound in H as (_ & _ & [Hp | [Hr _]]);
    [|exact Hr].
  rewrite <- Hsub at 1. rewrite (Z.land_comm required preferred), Z.land_assoc, Hp,
    Z.land_comm. exact Hsub.
Qed.

Lemma selectMemoryTypeIndex_has_required_witness :
  Z.land (sample_memory_types 2) 4 = 4%Z.
Proof.
  apply (selectMemoryTypeIndex_has_required 14 sample_memory_types 6 4 2);
    vm_compute; reflexivity.
Defined.

(** *** selectQueueFamilyAndPhysicalDevice *)

Lemma find_graphics_family_some qfs k i :
  find_graphics_family qfs k = Some i ->
  k <= i /\
  (exists q, nth_error qfs (i - k) = Some q /\ qf_graphics q = true /\ 0 < qf_count q) /\
  (forall j q, j < i - k -> nth_error qfs j = Some q ->
               ~ (qf_graphics q = true /\ 0 < qf_count q)).
Proof.
  revert k. induction qfs as [|a qfs IH]; intros k H; [discriminate|].
  change (find_graphics_family (a :: qfs) k) with
    (if qf_graphics a && (0 <? qf_count a) then Some k else find_graphics_family qfs (S k)) in H.
  destruct (qf_graphics a && (0 <? qf_count a)) eqn:E.
  - injection H as <-. apply andb_true_iff in E as [Eg Ec]. apply Nat.ltb_lt in Ec.
    rewrite Nat.sub_diag. split; [lia|]. split; [exists a; auto|]. intros j q Hj. lia.
  - destruct (IH (S k) H) as (Hk & (q & Hq & Hg & Hc) & Hb).
    replace (i - k) with (S (i - S k)) by lia.
    split; [lia|]. split; [exists q; auto|].
    intros [|j] q' Hj Hq'; cbn in Hq'.
    + injection Hq' as <-. rewrite andb_false_iff, Nat.ltb_ge in E.
      intros [Hg' Hc']. destruct E as [E|E]; [congruence | lia].
    + apply (Hb j q'); [lia | exact Hq'].
Qed.

Lemma find_graphics_family_none qfs k :
  find_graphics_family qfs k = None ->
  forall q, In q qfs -> ~ (qf_graphics q = true /\ 0 < qf_count q).
Proof.
  revert k. induction qfs as [|a qfs IH]; intros k H q Hin; [destruct Hin|].
  change (find_graphics_family (a :: qfs) k) with
    (if qf_graphics a && (0 <? qf_count a) then Some k else find_graphics_family qfs (S k)) in H.
  destruct (qf_graphics a && (0 <? qf_count a)) eqn:E; [discriminate|].
  destruct Hin as [<-|Hin]; [|exact (IH (S k) H q Hin)].
  rewrite andb_false_iff, Nat.ltb_ge in E. intros [Hg Hc]. destruct E as [E|E]; [congruence | lia].
Qed.

(** X5: when [selectQueueFamilyAndPhysicalDevice] returns, there is at least
    one adapter, the first one is selected, and [m_gq_fam_idx] is the lowest
    index of a queue family that supports graphics and has a queue; it
    enumerates the adapters once and changes nothing else. *)
Theorem selectQueueFamilyAndPhysicalDevice_first_graphics w s tr u s' tr' :
  selectQueueFamilyAndPhysicalDevice w s tr = ROk u s' tr' ->
  tr' = tr ++ [EnumeratePhysicalDevices] /\ 0 < w_num_phys_devs w /\
  exists i q,
    s' = set_gq_fam_idx (Z.of_nat i) (set_phys_dev (Some phys_idx) s) /\
    nth_error (w_queue_families w) i = Some q /\ qf_graphics q = true /\ 0 < qf_count q /\
    forall j q', j < i -> nth_error (w_queue_families w) j = Some q' ->
                 ~ (qf_graphics q' = true /\ 0 < qf_count q').
Proof.
  unfold selectQueueFamilyAndPhysicalDevice. cbv [bind call asks modify ret throw].
  destruct (w_res w EnumeratePhysicalDevices); try discriminate.
  destruct (w_num_phys_devs w <=? phys_idx) eqn:En; [discriminate|].
  apply Nat.leb_gt in En. unfold phys_idx in En.
  destruct (find_graphics_family (w_queue_families w) 0) as [i|] eqn:Ef; [|discriminate].
  intros H. injection H as <- <- <-. split; [reflexivity|]. split; [exact En|].
  apply find_graphics_family_some in Ef as (_ & (q & Hq & Hg & Hc) & Hb).
  rewrite Nat.sub_0_r in Hq, Hb. exists i, q. auto.
Qed.

Lemma selectQueueFamilyAndPhysicalDevice_first_graphics_witness :
  exists s' tr',
    selectQueueFamilyAndPhysicalDevice late_graphics_world new_scene [] = ROk tt s' tr' /\
    (tr' = [] ++ [EnumeratePhysicalDevices] /\ 0 < w_num_phys_devs late_graphics_world /\
     exists i q,
       s' = set_gq_fam_idx (Z.of_nat i) (set_phys_dev (Some phys_idx) new_scene) /\
       nth_error (w_queue_families late_graphics_world) i = Some q /\
       qf_graphics q = true /\ 0 < qf_count q /\
       forall j q', j < i -> nth_error (w_queue_families late_graphics_world) j = Some q' ->
                    ~ (qf_graphics q' = true /\ 0 < qf_count q')).
Proof.
  do 2 eexists. split; [cbv; reflexivity|].
  apply (selectQueueFamilyAndPhysicalDevice_first_graphics late_graphics_world new_scene [] tt).
  cbv. reflexivity.
Defined.

Lemma find_graphics_family_no_family qfs k :
  (forall q, In q qfs -> ~ (qf_graphics q = true /\ 0 < qf_count q)) ->
  find_graphics_family qfs k = None.
Proof.
  revert k. induction qfs as [|a qfs IH]; intros k H; [reflexivity|].
  change (find_graphics_family (a :: qfs) k) with
    (if qf_graphics a && (0 <? qf_count a) then Some k else find_graphics_family qfs (S k)).
  destruct (qf_graphics a && (0 <? qf_count a)) eqn:E.
  - exfalso. apply andb_true_iff in E as [Eg Ec]. apply Nat.ltb_lt in Ec.
    exact (H a (or_introl eq_refl) (conj Eg Ec)).
  - apply IH. intros q Hq. apply H. right. exact Hq.
Qed.

(** X6: once the adapters are enumerated, [selectQueueFamilyAndPhysicalDevice]
    throws "Invalid Physical Device Index provided!" when there is no
    adapter, leaving the [Scene] as it was, and "Can not find graphics
    family index!" when there is an adapter but no queue family of it
    supports graphics with a queue, after selecting the adapter.  These are
    the only exceptions it raises besides the enumeration's own error. *)
Theorem selectQueueFamilyAndPhysicalDevice_throws w s tr :
  (w_res w EnumeratePhysicalDevices = VOk -> w_num_phys_devs w = 0 ->
   selectQueueFamilyAndPhysicalDevice w s tr =
     RExc (RuntimeError "Invalid Physical Device Index provided!") s
          (tr ++ [EnumeratePhysicalDevices])) /\
  (w_res w EnumeratePhysicalDevices = VOk -> 0 < w_num_phys_devs w ->
   (forall q, In q (w_queue_families w) -> ~ (qf_graphics q = true /\ 0 < qf_count q)) ->
   selectQueueFamilyAndPhysicalDevice w s tr =
     RExc (RuntimeError "Can not find graphics family index!") (set_phys_dev (Some phys_idx) s)
          (tr ++ [EnumeratePhysicalDevices])) /\
  (forall e s' tr',
   selectQueueFamilyAndPhysicalDevice w s tr = RExc e s' tr' ->
   tr' = tr ++ [EnumeratePhysicalDevices] /\
   ((w_res w EnumeratePhysicalDevices <> VOk /\ s' = s) \/
    (w_num_phys_devs w = 0 /\ e = RuntimeError "Invalid Physical Device Index provided!" /\
     s' = s) \/
    (0 < w_num_phys_devs w /\ e = RuntimeError "Can not find graphics family index!" /\
     s' = set_phys_dev (Some phys_idx) s /\
     forall q, In q (w_queue_families w) -> ~ (qf_graphics q = true /\ 0 < qf_count q)))).
Proof.
  unfold selectQueueFamilyAndPhysicalDevice. cbv [bind call asks modify ret throw].
  split; [|split].
  - intros Hr Hn. rewrite Hr, Hn. reflexivity.
  - intros Hr Hn Hq. rewrite Hr.
    destruct (Nat.leb_spec (w_num_phys_devs w) phys_idx) as [Hle|_];
      [unfold phys_idx in Hle; lia|].
    rewrite (find_graphics_family_no_family _ 0 Hq). reflexivity.
  - intros e s' tr'.
    destruct (w_res w EnumeratePhysicalDevices) eqn:Er;
      try (intros H; injection H as <- <- <-; split; [reflexivity|];
           left; split; [congruence | reflexivity]);
      try discriminate.
    destruct (w_num_phys_devs w <=? phys_idx) eqn:En.
    + intros H. injection H as <- <- <-. apply Nat.leb_le in En. unfold phys_idx in En.
      split; [reflexivity|]. right. left. split; [lia|]. auto.
    + apply Nat.leb_gt in En. unfold phys_idx in En.
      destruct (find_graphics_family (w_queue_families w) 0) as [i|] eqn:Ef; [discriminate|].
      intros H. injection H as <- <- <-. split; [reflexivity|]. right. right.
      split; [exact En|]. split; [reflexivity|]. split; [reflexivity|].
      exact (find_graphics_family_none _ _ Ef).
Qed.

Lemma selectQueueFamilyAndPhysicalDevice_throws_witness :
  selectQueueFamilyAndPhysicalDevice compute_only_world new_scene [] =
    RExc (RuntimeError "Can not find graphics family index!")
         (set_phys_dev (Some phys_idx) new_scene) ([] ++ [EnumeratePhysicalDevices]).
Proof.
  apply (proj1 (proj2 (selectQueueFamilyAndPhysicalDevice_throws compute_only_world new_scene [])));
    [reflexivity | cbv; lia |].
  intros q [<-|[]]. cbv. intros [H _]. discriminate H.
Defined.

(** *** isInstanceExtensionAvailable *)

(** X7: once the extensions can be enumerated,
    [isInstanceExtensionAvailable ext] enumerates them once, leaves the
    [Scene] alone, and returns [true] exactly when [ext] is among their
    names. *)
Theorem isInstanceExtensionAvailable_iff ext w s tr :
  w_res w EnumerateInstanceExtensionProperties = VOk ->
  exists b, isInstanceExtensionAvailable ext w s tr =
              ROk b s (tr ++ [EnumerateInstanceExtensionProperties]) /\
            (b = true <-> In ext (w_inst_exts w)).
Proof.
  intros H. exists (existsb (String.eqb ext) (w_inst_exts w)).
  unfold isInstanceExtensionAvailable. cbv [bind call asks ret]. rewrite H.
  split; [reflexivity|]. rewrite existsb_exists. split.
  - intros (x & Hin & Hx). apply String.eqb_eq in Hx. subst x. exact Hin.
  - intros Hin. exists ext. split; [exact Hin | apply String.eqb_refl].
Qed.

Lemma isInstanceExtensionAvailable_iff_witness :
  exists b, isInstanceExtensionAvailable VK_KHR_WIN32_SURFACE_EXTENSION_NAME
              surface_only_world new_scene [] =
              ROk b new_scene ([] ++ [EnumerateInstanceExtensionProperties]) /\
            (b = true <-> In VK_KHR_WIN32_SURFACE_EXTENSION_NAME
                              (w_inst_exts surface_only_world)).
Proof. apply isInstanceExtensionAvailable_iff. reflexivity. Defined.

(** *** createSwapChainAndImages *)

Lemma format_found_iff fmts :
  existsb (fun f => format_eqb f FormatUndefined || format_eqb f m_swapchain_format) fmts = true <->
  In FormatUndefined fmts \/ In FormatB8G8R8A8Unorm fmts.
Proof.
  rewrite existsb_exists. split.
  - intros (f & Hin & Hf). destruct f; cbn in Hf; try discriminate; auto.
  - intros [Hin|Hin]; eexists; split; [exact Hin | reflexivity | exact Hin | reflexivity].
Qed.

Lemma present_mode_found_iff modes :
  existsb (present_mode_eqb m_present_mode) modes = true <-> In PresentFifo modes.
Proof.
  rewrite existsb_exists. split.
  - intros (m & Hin & Hm). destruct m; cbn in Hm; try discriminate; exact Hin.
  - intros Hin. exists PresentFifo. split; [exact Hin | reflexivity].
Qed.

(** Reduces the guards decided so far and the calls after them. *)
Ltac guard_step Hall := cbn [negb orb andb]; rewrite ?Hall; cbn [negb orb andb].

(** X8: when every call succeeds, [createSwapChainAndImages] returns exactly
    when the surface's current extent is 1280x720, its minimum image count
    is at most 2, its maximum is 0 (no limit) or at least 2, it can be a
    color attachment, it offers [eUndefined] or [eB8G8R8A8Unorm] and it
    offers FIFO presentation; it then holds a swapchain and as many images
    as the driver created, and changes nothing else. *)
Theorem createSwapChainAndImages_accepts w s tr :
  (forall c, w_res w c = VOk) ->
  (exists tr', createSwapChainAndImages w s tr =
                 ROk tt (set_swapchain_imgs (w_swapchain_images w) (set_uniq HSwapchain s)) tr') <->
  (cur_width (w_caps w) = 1280 /\ cur_height (w_caps w) = 720 /\
   min_image_count (w_caps w) <= 2 /\
   (max_image_count (w_caps w) = 0 \/ 2 <= max_image_count (w_caps w)) /\
   color_attachment_usage (w_caps w) = true /\
   (In FormatUndefined (w_formats w) \/ In FormatB8G8R8A8Unorm (w_formats w)) /\
   In PresentFifo (w_present_modes w)).
Proof.
  intros Hall. unfold createSwapChainAndImages. cbv [bind call asks modify ret throw].
  rewrite <- format_found_iff, <- present_mode_found_iff.
  unfold m_width, m_height, m_sw_num_images.
  guard_step Hall.
  destruct (Nat.eqb_spec 1280 (cur_width (w_caps w))) as [E1|E1]; guard_step Hall;
    [|split; [intros [? H]; discriminate H | intros [H _]; congruence]].
  destruct (Nat.eqb_spec 720 (cur_height (w_caps w))) as [E2|E2]; guard_step Hall;
    [|split; [intros [? H]; discriminate H | intros (_ & H & _); congruence]].
  destruct (Nat.ltb_spec 2 (min_image_count (w_caps w))) as [E3|E3]; guard_step Hall;
    [split; [intros [? H]; discriminate H | intros (_ & _ & H & _); lia]|].
  destruct (Nat.eqb_spec (max_image_count (w_caps w)) 0) as [E4|E4];
    destruct (Nat.ltb_spec (max_image_count (w_caps w)) 2) as [E5|E5]; guard_step Hall;
    try (split; [intros [? H]; discriminate H | intros (_ & _ & _ & [H|H] & _); lia]).
  all: destruct (color_attachment_usage (w_caps w)); guard_step Hall;
    [|split; [intros [? H]; discriminate H | intros (_ & _ & _ & _ & H & _); discriminate H]].
  all: destruct (existsb (fun f => format_eqb f FormatUndefined || format_eqb f m_swapchain_format)
                   (w_formats w)); guard_step Hall;
    [|split; [intros [? H]; discriminate H | intros (_ & _ & _ & _ & _ & H & _); discriminate H]].
  all: destruct (existsb (present_mode_eqb m_present_mode) (w_present_modes w)); guard_step Hall;
    [|split; [intros [? H]; discriminate H | intros (_ & _ & _ & _ & _ & _ & H); discriminate H]].
  all: split; [intros _ | intros _; eexists; reflexivity].
  all: repeat split; auto; lia.
Qed.

Lemma createSwapChainAndImages_accepts_witness :
  (exists tr', createSwapChainAndImages good_world new_scene [] =
     ROk tt (set_swapchain_imgs (w_swapchain_images good_world) (set_uniq HSwapchain new_scene)) tr') <->
  (cur_width (w_caps good_world) = 1280 /\ cur_height (w_caps good_world) = 720 /\
   min_image_count (w_caps good_world) <= 2 /\
   (max_image_count (w_caps good_world) = 0 \/ 2 <= max_image_count (w_caps good_world)) /\
   color_attachment_usage (w_caps good_world) = true /\
   (In FormatUndefined (w_formats good_world) \/ In FormatB8G8R8A8Unorm (w_formats good_world)) /\
   In PresentFifo (w_present_modes good_world)).
Proof. apply createSwapChainAndImages_accepts. intros c. reflexivity. Defined.

(** *** createFramebuffer *)

(** X9: [createFramebuffer] reads one image view per framebuffer it makes,
    and it makes [m_sw_num_images] of them whatever the number of views:
    with fewer views than 2 it indexes past the end of the vector, otherwise
    (when the creations succeed) it adds exactly 2 framebuffers, for views 0
    and 1. *)
Theorem createFramebuffer_reads_two_views w s tr :
  (forall i, w_res w (CreateFramebuffer i) = VOk) ->
  (m_swapchain_img_views s < m_sw_num_images -> exists tr', createFramebuffer w s tr = RUB tr') /\
  (m_sw_num_images <= m_swapchain_img_views s ->
   createFramebuffer w s tr =
   ROk tt (push_framebuffer (push_framebuffer s)) (tr ++ [CreateFramebuffer 0; CreateFramebuffer 1])).
Proof.
  intros Hall. unfold createFramebuffer, m_sw_num_images.
  cbv [for_from bind get index_check call modify ret ub].
  destruct (m_swapchain_img_views s) as [|[|n]] eqn:E; split; intros H; try lia;
    repeat progress (cbn; rewrite ?E, ?Hall); try (eexists; reflexivity).
  rewrite <- app_assoc. reflexivity.
Qed.

Lemma createFramebuffer_reads_two_views_witness :
  (m_swapchain_img_views ready_scene < m_sw_num_images ->
   exists tr', createFramebuffer good_world ready_scene [] = RUB tr') /\
  (m_sw_num_images <= m_swapchain_img_views ready_scene ->
   createFramebuffer good_world ready_scene [] =
   ROk tt (push_framebuffer (push_framebuffer ready_scene))
       ([] ++ [CreateFramebuffer 0; CreateFramebuffer 1])).
Proof. apply createFramebuffer_reads_two_views. intros i. reflexivity. Defined.

(** *** Scene::run *)

(** X10: [run()] returns only through the close test: the iterations
    before the first one that finds the close flag set run in full, and the
    closing iteration only polls and reads the flag. *)
Theorem run_returns_only_on_close frames w s tr u s' tr' :
  run frames w s tr = ROk u s' tr' ->
  exists pre f rest tr0,
    frames = pre ++ f :: rest /\ Forall (fun g => fi_close g = false) pre /\
    fi_close f = true /\
    iterations pre w s tr = ROk tt s' tr0 /\
    tr' = tr0 ++ [GlfwPollEvents; GlfwWindowShouldClose].
Proof.
  unfold run. intros H.
  assert (Hsplit : exists pre f rest, frames = pre ++ f :: rest /\
                     Forall (fun g => fi_close g = false) pre /\ fi_close f = true).
  { clear -H. revert s tr H. induction frames as [|f fs IH]; intros s tr H;
      [discriminate H|].
    cbn [run_loop] in H. apply bind_ok_inv in H as (a & s1 & tr1 & Hl & Hk).
    destruct (fi_close f) eqn:Ec; [exists [], f, fs; auto|].
    rewrite (loop_iteration_open f w s tr a s1 tr1 Ec Hl) in Hk.
    destruct (IH s1 tr1 Hk) as (pre & g & rest & -> & Hp & Hg).
    exists (f :: pre), g, rest. split; [reflexivity|]. split; [constructor; auto | exact Hg]. }
  destruct Hsplit as (pre & f & rest & -> & Hp & Hf).
  rewrite run_loop_app in H by exact Hp. cbv [bind] in H.
  destruct (iterations pre w s tr) as [[] s1 tr1| | |] eqn:Ei; try discriminate H.
  rewrite run_loop_close in H by exact Hf. injection H as <- <- <-.
  exists pre, f, rest, tr1. auto.
Qed.

Lemma run_returns_only_on_close_witness :
  exists s' tr',
    run [frame_ok false 0; frame_ok false 1; frame_ok true 0] good_world ready_scene [] =
      ROk tt s' tr' /\
    exists pre f rest tr0,
      [frame_ok false 0; frame_ok false 1; frame_ok true 0] = pre ++ f :: rest /\
      Forall (fun g => fi_close g = false) pre /\ fi_close f = true /\
      iterations pre good_world ready_scene [] = ROk tt s' tr0 /\
      tr' = tr0 ++ [GlfwPollEvents; GlfwWindowShouldClose].
Proof.
  do 2 eexists. split; [cbv; reflexivity|].
  apply (run_returns_only_on_close _ good_world ready_scene [] tt). cbv. reflexivity.
Defined.

(** *** Scene::shutdown *)

(** X11: on a [Scene] whose window pointer has been assigned, [shutdown()]
    returns (unless the wait blocks forever) with the [Scene] unchanged, and
    issues: [waitIdle] only if a device was created, whatever it reports;
    [glfwDestroyWindow] only if the window is not null; then
    [glfwTerminate]. *)
Theorem shutdown_trace w s tr :
  m_window s <> PIndet -> w_res w DeviceWaitIdle <> VHang ->
  shutdown w s tr =
  ROk tt s (tr ++ (if m_uniq s HDevice then [DeviceWaitIdle] else []) ++
            (match m_window s with PWin n => [GlfwDestroyWindow (PWin n)] | _ => [] end) ++
            [GlfwTerminate]).
Proof.
  intros Hw Hi. cbv [shutdown catch_all bind get call ret ptr_truth emit ub].
  destruct (m_uniq s HDevice); [destruct (w_res w DeviceWaitIdle); try congruence|];
    destruct (m_window s); try congruence; cbv beta iota; rewrite <- ?app_assoc; reflexivity.
Qed.

Lemma shutdown_trace_witness :
  shutdown good_world ready_scene [] =
  ROk tt ready_scene ([] ++ (if m_uniq ready_scene HDevice then [DeviceWaitIdle] else []) ++
            (match m_window ready_scene with
             | PWin n => [GlfwDestroyWindow (PWin n)] | _ => [] end) ++
            [GlfwTerminate]).
Proof. apply shutdown_trace; cbv; discriminate. Defined.

(** *** main *)

(** X12: when [glfwCreateWindow] returns null, [initialize()] throws
    "Window Creation failed!" right after the window request, with the null
    window stored; the [shutdown()] that [main] then runs on that [Scene]
    neither waits on a device nor destroys a window, it only terminates
    GLFW; and [main] prints the error and exits with 1, whatever else the
    machine offers, without making a second [Scene]. *)
Theorem main_window_creation_failure w1 frames w2 :
  w_window w1 = None ->
  initialize w1 new_scene [] =
    RExc (RuntimeError "Window Creation failed!") (set_window PNull new_scene)
         [GlfwInit; GlfwSetErrorCallback; GlfwWindowHint; GlfwCreateWindow m_width m_height] /\
  shutdown w1 (set_window PNull new_scene) [] = ROk tt (set_window PNull new_scene) [GlfwTerminate] /\
  main w1 frames w2 =
  MExit 1 [ConstructScene 1; CallInitialize 1; Cerr "Error Occurred: Window Creation failed!";
           CallShutdown 1].
Proof.
  intros Hw. split; [|split].
  - cbv [initialize bind createWindowAndSurface emit glfwCreateWindow modify ret throw].
    rewrite Hw. reflexivity.
  - reflexivity.
  - unfold main.
    cbv [initialize bind createWindowAndSurface emit glfwCreateWindow modify ret throw].
    rewrite Hw. reflexivity.
Qed.

Lemma main_window_creation_failure_witness :
  main windowless_world [frame_ok true 0] good_world =
  MExit 1 [ConstructScene 1; CallInitialize 1; Cerr "Error Occurred: Window Creation failed!";
           CallShutdown 1].
Proof.
  exact (proj2 (proj2 (main_window_creation_failure windowless_world [frame_ok true 0]
                          good_world eq_refl))).
Defined.

Lemma main_shutdown_exit w s evs k c e :
  main_shutdown w s evs k = MExit c e -> k = MExit c e.
Proof. unfold main_shutdown. destruct (shutdown w s []); congruence. Qed.

Lemma main_reinit_exit w2 evs rv c e :
  main_reinit w2 evs rv = MExit c e -> c = rv \/ c = 1%Z.
Proof.
  unfold main_reinit. destruct (initialize w2 new_scene []); try discriminate;
    intros H; apply main_shutdown_exit in H; injection H as <- _; auto.
Qed.

Lemma main_after_first_exit w1 w2 s evs dl rv c e :
  main_after_first w1 w2 s evs dl rv = MExit c e -> c = rv \/ c = 1%Z.
Proof.
  unfold main_after_first. intros H. apply main_shutdown_exit in H.
  destruct dl; cbn [negb] in H.
  - exact (main_reinit_exit _ _ _ _ _ H).
  - injection H as <- _. auto.
Qed.

(** X13: [main] returns only 0 or 1. *)
Theorem main_exit_code_range w1 frames w2 code evs :
  main w1 frames w2 = MExit code evs -> code = 0%Z \/ code = 1%Z.
Proof.
  rewrite main_eq. destruct ((initialize;; run frames) w1 new_scene []) as [a s tr|e s tr|tr|tr];
    try discriminate.
  - intros H. apply main_after_first_exit in H. lia.
  - destruct (is_device_lost e); intros H; apply main_after_first_exit in H; lia.
Qed.

Lemma main_exit_code_range_witness :
  exists evs, main good_world [frame_lost_in_submit] good_world = MExit 0 evs /\
              (0%Z = 0%Z \/ 0%Z = 1%Z).
Proof.
  eexists. split; [cbv; reflexivity|].
  eapply (main_exit_code_range good_world [frame_lost_in_submit] good_world).
  cbv. reflexivity.
Defined.

Ltac no_pause := rewrite ?in_app_iff in *; cbn [In] in *; intuition discriminate.

Lemma first_events_no_pause w1 : ~ In SystemPause (first_events w1).
Proof. unfold first_events. destruct (initialize w1 new_scene []); no_pause. Qed.

Lemma main_reinit_pause w2 evs rv :
  ~ In SystemPause evs -> In SystemPause (main_events (main_reinit w2 evs rv)) ->
  exists c evs', main_reinit w2 evs rv = MExit c (evs' ++ [SystemPause]) /\
                 In (ConstructScene 2) evs' /\ ~ In SystemPause evs'.
Proof.
  intros Hn Hin. unfold main_reinit, main_shutdown in *.
  destruct (initialize w2 new_scene []); [| | cbn [main_events] in Hin; no_pause ..].
  all: destruct (shutdown w2 s []); cbn [main_events] in Hin; try no_pause.
  all: do 2 eexists; split; [reflexivity|]; split; no_pause.
Qed.

Lemma main_after_first_pause w1 w2 s evs dl rv :
  ~ In SystemPause evs -> In SystemPause (main_events (main_after_first w1 w2 s evs dl rv)) ->
  dl = true /\
  exists c evs', main_after_first w1 w2 s evs dl rv = MExit c (evs' ++ [SystemPause]) /\
                 In (ConstructScene 2) evs' /\ ~ In SystemPause evs'.
Proof.
  intros Hn Hin. unfold main_after_first, main_shutdown in *.
  destruct (shutdown w1 s []); cbn [main_events] in Hin; try no_pause.
  destruct dl; cbn [negb] in *; [|cbn [main_events] in Hin; no_pause].
  split; [reflexivity|]. apply main_reinit_pause; [no_pause | exact Hin].
Qed.

(** X14: the program pauses only when the first lifecycle ([initialize()]
    and [run()] of the first [Scene]) raised a device loss, and then only as
    its very last event, after a second [Scene] was constructed: a run
    without a device loss never pauses. *)
Theorem main_pause_only_after_recreation w1 frames w2 :
  In SystemPause (main_events (main w1 frames w2)) ->
  (exists m s tr, (initialize;; run frames) w1 new_scene [] = RExc (DeviceLostError m) s tr) /\
  exists code evs,
    main w1 frames w2 = MExit code (evs ++ [SystemPause]) /\
    In (ConstructScene 2) evs /\ ~ In SystemPause evs.
Proof.
  pose proof (first_events_no_pause w1) as Hf.
  rewrite main_eq. destruct ((initialize;; run frames) w1 new_scene []) as [a s tr|e s tr|tr|tr];
    [| destruct e as [m|m|m]; cbn [is_device_lost] | cbn [main_events]; intros H; contradiction ..];
    intros H; apply main_after_first_pause in H as [Hdl Hx]; try discriminate Hdl; try no_pause.
  split; [eauto | exact Hx].
Qed.

Lemma main_pause_only_after_recreation_witness :
  (exists m s tr, (initialize;; run [frame_lost_in_submit]) good_world new_scene [] =
                  RExc (DeviceLostError m) s tr) /\
  exists code evs,
    main good_world [frame_lost_in_submit] good_world = MExit code (evs ++ [SystemPause]) /\
    In (ConstructScene 2) evs /\ ~ In SystemPause evs.
Proof. apply main_pause_only_after_recreation. vm_compute. tauto. Defined.

(** *** The graphics queue family through device and surface creation *)

(** X15: when selecting the adapter, creating the device and creating the
    surface all succeed, the one family index that the device's queue, the
    queue fetched from it and the surface-support query use is the lowest
    graphics family with a queue, and the surface supports presentation
    from it. *)
Theorem graphics_family_used_throughout w s tr u s' tr' :
  (selectQueueFamilyAndPhysicalDevice;; initializeDevice;; createSurface) w s tr = ROk u s' tr' ->
  exists i, find_graphics_family (w_queue_families w) 0 = Some i /\
    m_gq_fam_idx s' = Z.of_nat i /\ w_surface_support w = true /\
    tr' = tr ++ [EnumeratePhysicalDevices; CreateDevice (Z.of_nat i); GetQueue (Z.of_nat i) 0;
                 CreateWin32Surface; GetSurfaceSupport (Z.of_nat i)].
Proof.
  unfold selectQueueFamilyAndPhysicalDevice, initializeDevice, createSurface. intros H.
  crush_step H. match goal with n : nat |- _ => exists n end.
  split; [reflexivity|]. split; [reflexivity|].
  split; [apply negb_false_iff; assumption|]. rewrite <- !app_assoc. reflexivity.
Qed.

Lemma graphics_family_used_throughout_witness :
  exists s' tr',
    (selectQueueFamilyAndPhysicalDevice;; initializeDevice;; createSurface)
      late_graphics_world new_scene [] = ROk tt s' tr' /\
    exists i, find_graphics_family (w_queue_families late_graphics_world) 0 = Some i /\
      m_gq_fam_idx s' = Z.of_nat i /\ w_surface_support late_graphics_world = true /\
      tr' = [] ++ [EnumeratePhysicalDevices; CreateDevice (Z.of_nat i); GetQueue (Z.of_nat i) 0;
                   CreateWin32Surface; GetSurfaceSupport (Z.of_nat i)].
Proof.
  do 2 eexists. split; [cbv; reflexivity|].
  apply (graphics_family_used_throughout late_graphics_world new_scene [] tt).
  cbv. reflexivity.
Defined.

(** *** initializeVKInstance *)

Lemma existsb_eqb_in x l : existsb (String.eqb x) l = true <-> In x l.
Proof.
  rewrite existsb_exists. split.
  - intros (y & Hin & Hy). apply String.eqb_eq in Hy. subst y. exact Hin.
  - intros Hin. exists x. split; [exact Hin | apply String.eqb_refl].
Qed.

(** X16: when every call succeeds, [initializeVKInstance] creates the
    instance exactly when the loader offers both [VK_KHR_surface] and
    [VK_KHR_win32_surface]. *)
Theorem initializeVKInstance_accepts w s tr :
  (forall c, w_res w c = VOk) ->
  (exists tr', initializeVKInstance w s tr = ROk tt (set_uniq HInstance s) tr') <->
  In VK_KHR_SURFACE_EXTENSION_NAME (w_inst_exts w) /\
  In VK_KHR_WIN32_SURFACE_EXTENSION_NAME (w_inst_exts w).
Proof.
  intros Hall. unfold initializeVKInstance, isInstanceExtensionAvailable.
  cbv [bind call asks modify ret throw]. rewrite <- !existsb_eqb_in.
  guard_step Hall.
  destruct (existsb (String.eqb VK_KHR_SURFACE_EXTENSION_NAME) (w_inst_exts w)); guard_step Hall;
    [|split; [intros [? H]; discriminate H | intros [H _]; discriminate H]].
  destruct (existsb (String.eqb VK_KHR_WIN32_SURFACE_EXTENSION_NAME) (w_inst_exts w));
    guard_step Hall;
    [|split; [intros [? H]; discriminate H | intros [_ H]; discriminate H]].
  split; [auto | intros _; eexists; reflexivity].
Qed.

Lemma initializeVKInstance_accepts_witness :
  (exists tr', initializeVKInstance surface_only_world new_scene [] =
                 ROk tt (set_uniq HInstance new_scene) tr') <->
  In VK_KHR_SURFACE_EXTENSION_NAME (w_inst_exts surface_only_world) /\
  In VK_KHR_WIN32_SURFACE_EXTENSION_NAME (w_inst_exts surface_only_world).
Proof. apply initializeVKInstance_accepts. intros c. reflexivity. Defined.
